(** * CleverCSV: the release runner ([make_release.py]) and [csv2df]
    ([clevercsv/wrappers.py])

    A shallow embedding of the two Python files in Rocq.  Python objects
    that are mutated in place (the [context] dict) live in an explicit
    heap; everything the script does to its environment (console, standard
    input, the file system, spawned commands, the browser) goes through an
    explicit [World]; exceptions are a result type threaded by a small
    state-and-exception monad. *)

From Stdlib Require Import ZArith Ascii String.
From stdpp Require Import gmap strings list fin_maps.

Local Open Scope Z_scope.
Local Open Scope list_scope.

(** ** Python values, exceptions and the state-and-exception monad *)

Module Py.

(** The exceptions the two files raise, catch or let through.  Text is
    modelled as strings of 8-bit characters. *)
Inductive exn : Type :=
| KeyboardInterrupt
| EOFError
| SystemExit (code : Z)
| KeyError (key : string)
| AttributeError (msg : string)
| FileNotFoundError (path : string)
| ValueError (msg : string)
| OtherError (what : string).

Inductive result (A : Type) : Type :=
| Ok (a : A)
| Raise (e : exn).
Arguments Ok {A} a.
Arguments Raise {A} e.

(** A computation over a state [S]: it returns normally with a value or
    raises, and in both cases leaves a state behind. *)
Definition M (S A : Type) : Type := S -> result A * S.

Definition ret {S A} (a : A) : M S A := fun s => (Ok a, s).

Definition raise {S A} (e : exn) : M S A := fun s => (Raise e, s).

Definition bind {S A B} (m : M S A) (k : A -> M S B) : M S B :=
  fun s =>
    match m s with
    | (Ok a, s') => k a s'
    | (Raise e, s') => (Raise e, s')
    end.

(** [try: m except e': handler], for a handler that catches exactly the
    exceptions on which [handles] answers [true]. *)
Definition try_except {S A} (m : M S A) (handles : exn -> bool)
    (handler : M S A) : M S A :=
  fun s =>
    match m s with
    | (Ok a, s') => (Ok a, s')
    | (Raise e, s') => if handles e then handler s' else (Raise e, s')
    end.

Definition is_KeyboardInterrupt (e : exn) : bool :=
  match e with KeyboardInterrupt => true | _ => false end.

(** Truthiness of an optional string ([None] and the empty string are
    falsy). *)
Definition truthy (o : option string) : bool :=
  match o with
  | None => false
  | Some EmptyString => false
  | Some (String _ _) => true
  end.

(** [name == target] for a string [name] and an optional string
    [target]: a string never equals [None]. *)
Definition eq_opt (name : string) (target : option string) : bool :=
  match target with
  | None => false
  | Some t => bool_decide (name = t)
  end.

(** *** String methods *)

Definition LF : ascii := "010"%char.
Definition CR : ascii := "013"%char.
Definition TAB : ascii := "009"%char.
Definition ESC : ascii := "027"%char.
Definition DQUOTE : ascii := "034"%char.

Definition ascii_eqb (a b : ascii) : bool := bool_decide (a = b).

(** [str.isspace] on one character of ASCII text. *)
Definition isspace (c : ascii) : bool :=
  let n := nat_of_ascii c in
  ((9 <=? n) && (n <=? 13) || (28 <=? n) && (n <=? 32))%nat.

Fixpoint lstrip (drop : ascii -> bool) (s : string) : string :=
  match s with
  | EmptyString => EmptyString
  | String c s' => if drop c then lstrip drop s' else s
  end.

Definition rstrip (drop : ascii -> bool) (s : string) : string :=
  String.rev (lstrip drop (String.rev s)).

(** [s.strip()] *)
Definition strip (s : string) : string := rstrip isspace (lstrip isspace s).

(** [s.strip(c)] for a one-character argument. *)
Definition strip_char (c : ascii) (s : string) : string :=
  rstrip (ascii_eqb c) (lstrip (ascii_eqb c) s).

(** [s.startswith(p)] *)
Definition startswith (s p : string) : bool := String.prefix p s.

(** [s.split(sep)] for a one-character separator; the result is never
    empty. *)
Fixpoint split (sep : ascii) (s : string) : list string :=
  match s with
  | EmptyString => [EmptyString]
  | String c s' =>
      if ascii_eqb c sep then EmptyString :: split sep s'
      else match split sep s' with
           | [] => [String c EmptyString]
           | w :: ws => String c w :: ws
           end
  end.

(** [l[-1]] on a list of strings known to be non-empty. *)
Definition last_item (l : list string) : string := List.last l EmptyString.

(** [s.lower()] on ASCII text. *)
Definition lower_char (c : ascii) : ascii :=
  let n := nat_of_ascii c in
  if ((65 <=? n) && (n <=? 90))%nat then ascii_of_nat (n + 32) else c.

Fixpoint lower (s : string) : string :=
  match s with
  | EmptyString => EmptyString
  | String c s' => String (lower_char c) (lower s')
  end.

(** Text-mode reading with the default [newline=None]: every line end
    (LF, CR LF or a lone CR) is read as LF. *)
Fixpoint universal_newlines (s : string) : string :=
  match s with
  | EmptyString => EmptyString
  | String c s' =>
      if ascii_eqb c CR then
        String LF
          match s' with
          | String c' s'' =>
              if ascii_eqb c' LF then universal_newlines s''
              else universal_newlines s'
          | EmptyString => EmptyString
          end
      else String c (universal_newlines s')
  end.

(** Iterating over a text file: the lines, each with its line end. *)
Fixpoint lines_from (cur : string) (s : string) : list string :=
  match s with
  | EmptyString =>
      match cur with EmptyString => [] | _ => [String.rev cur] end
  | String c s' =>
      if ascii_eqb c LF then String.rev (String c cur) :: lines_from EmptyString s'
      else lines_from (String c cur) s'
  end.

Definition readlines (contents : string) : list string :=
  lines_from EmptyString (universal_newlines contents).

(** [next((f(l) for l in xs if p(l)), None)] *)
Definition next_where {A B} (p : A -> bool) (f : A -> B) (xs : list A)
    : option B :=
  f <$> List.find p xs.

End Py.

Declare Scope py_scope.
Delimit Scope py_scope with py.
Notation "'let*' x ':=' m 'in' k" := (Py.bind m (fun x => k))
  (at level 10, x name, m at level 100, k at level 200) : py_scope.
Notation "m '>>' k" := (Py.bind m (fun _ => k))
  (at level 100, k at level 200, right associativity) : py_scope.

(** ** [make_release.py] *)

Module MakeRelease.
Import Py.
Local Open Scope py_scope.

(** *** The environment of the script *)

(** What the operator does while the script waits on standard input:
    edit a file, type a line and press Enter, interrupt (Ctrl-C), or
    close the input (Ctrl-D). *)
Inductive operator_event : Type :=
| Edit (path contents : string)
| TypeLine (line : string)
| CtrlC
| CtrlD.

(** What the script does to the outside, in order. *)
Inductive event : Type :=
| Printed (text : string)
| Prompted (text : string)
| Spawned (cmd : string)
| Browsed (url : string).

(** [files] maps a path to the text of the file; [operator] is what the
    operator is going to do; [shell_effect] and [exit_status] say what a
    spawned command does to the files and which status it returns (the
    status may depend on all that happened before); [heap] holds the
    Python dicts, by address; [trace] is the record of what happened. *)
Record World : Type := mkWorld {
  files : gmap string string;
  operator : list operator_event;
  shell_effect : string -> gmap string string -> gmap string string;
  exit_status : list event -> string -> Z;
  heap : gmap nat (gmap string string);
  trace : list event
}.

Definition set_files (f : gmap string string) (w : World) : World :=
  mkWorld f (operator w) (shell_effect w) (exit_status w) (heap w) (trace w).
Definition set_operator (o : list operator_event) (w : World) : World :=
  mkWorld (files w) o (shell_effect w) (exit_status w) (heap w) (trace w).
Definition set_exit_status (x : list event -> string -> Z) (w : World) : World :=
  mkWorld (files w) (operator w) (shell_effect w) x (heap w) (trace w).
Definition set_heap (h : gmap nat (gmap string string)) (w : World) : World :=
  mkWorld (files w) (operator w) (shell_effect w) (exit_status w) h (trace w).
Definition emit (e : event) (w : World) : World :=
  mkWorld (files w) (operator w) (shell_effect w) (exit_status w) (heap w)
          (trace w ++ [e]).

(** *** Built-ins and library calls *)

(** [print(text)] *)
Definition print (text : string) : M World unit :=
  fun w => (Ok tt, emit (Printed text) w).

(** The operator acts until a line is entered or the wait is broken. *)
Fixpoint await_line (evs : list operator_event) (fs : gmap string string)
    : result string * list operator_event * gmap string string :=
  match evs with
  | [] => (Raise EOFError, [], fs)
  | Edit p c :: evs' => await_line evs' (<[p := c]> fs)
  | TypeLine l :: evs' => (Ok l, evs', fs)
  | CtrlC :: evs' => (Raise KeyboardInterrupt, evs', fs)
  | CtrlD :: evs' => (Raise EOFError, evs', fs)
  end.

(** [input(prompt)] *)
Definition input (prompt : string) : M World string :=
  fun w =>
    let w1 := emit (Prompted prompt) w in
    match await_line (operator w1) (files w1) with
    | (r, evs, fs) => (r, set_files fs (set_operator evs w1))
    end.

(** [os.system(cmd)]: the command runs to its end and its exit status
    is returned. *)
Definition os_system (cmd : string) : M World Z :=
  fun w =>
    let w1 := emit (Spawned cmd) w in
    (Ok (exit_status w1 (trace w) cmd),
     set_files (shell_effect w1 cmd (files w1)) w1).

(** [webbrowser.open(url)] *)
Definition webbrowser_open (url : string) : M World bool :=
  fun w => (Ok true, emit (Browsed url) w).

(** [open(path, "r")] followed by reading the whole text.  A path in
    [files] is a text file that can be opened and read; a path that is not
    in it is not there, and opening it raises [FileNotFoundError].  The
    other ways in which [open] and the reading fail (the path is a
    directory, the file may not be read, its bytes do not decode) are
    outside the model: no world has such a path, and none of them is a
    not-found condition. *)
Definition read_text (path : string) : M World string :=
  fun w =>
    match files w !! path with
    | Some contents => (Ok contents, w)
    | None => (Raise (FileNotFoundError path), w)
    end.

(** [{}]: a new dict, at an address not in use. *)
Definition new_dict : M World nat :=
  fun w =>
    let l := fresh (dom (heap w)) in
    (Ok l, set_heap (<[l := ∅]> (heap w)) w).

(** The dict at an address (an address not in use holds nothing). *)
Definition dict_at (l : nat) (w : World) : gmap string string :=
  default ∅ (heap w !! l).

(** [d[key]] *)
Definition getitem (d : nat) (key : string) : M World string :=
  fun w =>
    match dict_at d w !! key with
    | Some v => (Ok v, w)
    | None => (Raise (KeyError key), w)
    end.

(** [d[key] = value] *)
Definition setitem (d : nat) (key value : string) : M World unit :=
  fun w => (Ok tt, set_heap (<[d := <[key := value]> (dict_at d w)]> (heap w)) w).

(** *** Presentation helpers *)

Inductive color : Type := red | green | cyan | yellow | magenta.
Inductive style : Type := bright | dim.

(** colorama's constants. *)
Definition Fore (c : color) : string :=
  String ESC match c with
             | red => "[31m"
             | green => "[32m"
             | cyan => "[36m"
             | yellow => "[33m"
             | magenta => "[35m"
             end.
Definition Style (s : style) : string :=
  String ESC match s with bright => "[1m" | dim => "[2m" end.
Definition RESET_ALL : string := String ESC "[0m".

Definition colored (msg : string) (c : option color) (s : option style)
    : string :=
  let pre := from_option Fore EmptyString c +:+ from_option Style EmptyString s in
  let post := RESET_ALL in
  pre +:+ msg +:+ post.

Definition cprint (msg : string) (c : option color) (s : option style)
    : M World unit :=
  print (colored msg c s).

Definition wait_for_enter : M World unit :=
  input (colored (String LF "Press Enter to continue") None (Some dim)) >>
  print EmptyString.

(** *** Package metadata *)

Definition get_package_name : M World string :=
  let* text := read_text "./setup.py" in
  let nameline :=
    next_where (fun l => startswith l "NAME = ") strip (readlines text) in
  match nameline with
  | None => raise (AttributeError "'NoneType' object has no attribute 'split'")
  | Some nameline =>
      ret (strip_char DQUOTE (strip (last_item (split "=" nameline))))
  end.

(** *** Steps *)

(** A step object: the three methods of its class.  [run] is the one
    method no class overrides. *)
Record Step : Type := mkStep {
  pre : nat -> M World unit;
  action : nat -> M World unit;
  post : nat -> M World unit
}.

(** The methods of the base class. *)
Definition Step_pre (context : nat) : M World unit := ret tt.

Definition Step_post (context : nat) : M World unit := wait_for_enter.

(** The body of the [try] in [Step.run]. *)
Definition lifecycle (self : Step) (context : nat) : M World unit :=
  pre self context >>
  action self context >>
  post self context.

Definition run (self : Step) (context : nat) : M World unit :=
  try_except (lifecycle self context) is_KeyboardInterrupt
    (cprint (String LF "Interrupted.") (Some red) None >>
     raise (SystemExit 1)).

Definition instruct (msg : string) : M World unit :=
  cprint msg (Some green) None.

Definition print_cmd (msg : string) : M World unit :=
  cprint (String TAB msg) (Some cyan) (Some bright).

Definition print_run (msg : string) : M World unit :=
  cprint "Run:" (Some cyan) (Some bright) >>
  print_cmd msg.

Definition do_cmd (cmd : string) : M World unit :=
  cprint ("Going to run: " +:+ cmd) (Some magenta) (Some bright) >>
  wait_for_enter >>
  let* _status := os_system cmd in
  ret tt.

(** A subclass that only defines [action]. *)
Definition subclass (act : nat -> M World unit) : Step :=
  mkStep Step_pre act Step_post.

Definition URLS : gmap string string :=
  <["RTD" := "https://readthedocs.org/projects/clevercsv/builds/"]>
  (<["Travis" := "https://travis-ci.org/alan-turing-institute/CleverCSV"]> ∅).

(** [URLS[key]] *)
Definition URLS_getitem (key : string) : M World string :=
  match URLS !! key with
  | Some url => ret url
  | None => raise (KeyError key)
  end.

Definition GitToMaster : Step := subclass (fun context =>
  instruct "Make sure you're on master and changes are merged in" >>
  print_run "git checkout master").

Definition UpdateChangelog : Step := subclass (fun context =>
  let* version := getitem context "version" in
  instruct ("Update change log for version " +:+ version) >>
  print_run "vi CHANGELOG.md").

Definition RunTests : Step := subclass (fun context => do_cmd "make test").

Definition MakeClean : Step := subclass (fun context => do_cmd "make clean").

Definition MakeDocs : Step := subclass (fun context => do_cmd "make docs").

Definition MakeDist : Step := subclass (fun context => do_cmd "make dist").

Definition PushToTestPyPI : Step := subclass (fun context =>
  do_cmd "twine upload --repository-url https://test.pypi.org/legacy/ dist/*").

Definition InstallFromTestPyPI : Step := subclass (fun context =>
  print_run "cd /tmp/" >>
  print_cmd "rm -rf ./venv" >>
  print_cmd "virtualenv ./venv" >>
  print_cmd "source ./venv/bin/activate" >>
  let* pkgname := getitem context "pkgname" in
  let* version := getitem context "version" in
  print_cmd
    ("pip install --index-url https://test.pypi.org/simple/ "
     +:+ "--extra-index-url https://pypi.org/simple " +:+ pkgname
     +:+ "[full]==" +:+ version)).

Definition TestPackage : Step := subclass (fun context =>
  let* version := getitem context "version" in
  instruct ("Ensure that the following command gives version " +:+ version) >>
  let* pkgname := getitem context "pkgname" in
  print_run (pkgname +:+ " -V")).

Definition DeactivateVenv : Step := subclass (fun context =>
  print_run "deactivate" >>
  instruct "Go back to the project directory").

Definition GitTagVersion : Step := subclass (fun context =>
  let* version := getitem context "version" in
  do_cmd ("git tag v" +:+ version)).

Definition GitTagPreRelease : Step := subclass (fun context =>
  instruct "Tag version as a pre-release (increment as needed)" >>
  let* version := getitem context "version" in
  print_run ("git tag v" +:+ version +:+ "-rc.1")).

Definition GitAdd : Step := subclass (fun context =>
  instruct "Add everything to git and commit" >>
  print_run "git gui").

Definition GitAddRelease : Step := subclass (fun context =>
  instruct "Add Changelog & Readme to git" >>
  let* version := getitem context "version" in
  instruct ("Commit with title: CleverCSV Release " +:+ version) >>
  instruct "Embed changelog in body commit message" >>
  print_run "git gui").

Definition PushToPyPI : Step := subclass (fun context =>
  do_cmd "twine upload dist/*").

Definition PushToGitHub : Step := subclass (fun context =>
  do_cmd "git push -u --tags origin master").

Definition WaitForTravis : Step := subclass (fun context =>
  let* url := URLS_getitem "Travis" in
  let* _opened := webbrowser_open url in
  instruct "Wait for Travis to complete and verify that its successful").

Definition WaitForRTD : Step := subclass (fun context =>
  let* url := URLS_getitem "RTD" in
  let* _opened := webbrowser_open url in
  instruct "Wait for ReadTheDocs to complete and verify that its successful").

(** *** The runner *)

(** The [for] loop of [main], from the entry it stands at. *)
Fixpoint loop (procedure : list (string * Step)) (context : nat)
    (target : option string) (skip : bool) : M World unit :=
  match procedure with
  | [] => ret tt
  | (name, step) :: rest =>
      if negb (eq_opt name target) && skip then
        loop rest context target skip
      else
        run step context >>
        loop rest context target false
  end.

(** The value [skip] starts with: [True if target else False]. *)
Definition initial_skip (target : option string) : bool :=
  if truthy target then true else false.

(** The runner: the last lines of [main], from the assignment of [skip]
    to the final message, for any procedure and context. *)
Definition execute (procedure : list (string * Step)) (context : nat)
    (target : option string) : M World unit :=
  let skip := initial_skip target in
  loop procedure context target skip >>
  cprint (String LF "Done!") (Some yellow) (Some bright).

(** **** The runner with a record of its calls

    The same loop, returning next to its outcome the calls of [run] it
    made, in order: the entry's name, the step, the context passed and the
    world in which the call started.  Steps have no access to the
    record. *)
Record call : Type := mkCall {
  call_name : string;
  call_step : Step;
  call_context : nat;
  call_world : World
}.

Fixpoint loop_calls (procedure : list (string * Step)) (context : nat)
    (target : option string) (skip : bool) (w : World)
    : list call * (result unit * World) :=
  match procedure with
  | [] => ([], (Ok tt, w))
  | (name, step) :: rest =>
      if negb (eq_opt name target) && skip then
        loop_calls rest context target skip w
      else
        let c := mkCall name step context w in
        match run step context w with
        | (Ok _, w') =>
            let (cs, out) := loop_calls rest context target false w' in
            (c :: cs, out)
        | (Raise e, w') => ([c], (Raise e, w'))
        end
  end.

Definition execute_calls (procedure : list (string * Step)) (context : nat)
    (target : option string) (w : World)
    : list call * (result unit * World) :=
  let skip := initial_skip target in
  let (cs, out) := loop_calls procedure context target skip w in
  match out with
  | (Ok _, w') =>
      (cs, cprint (String LF "Done!") (Some yellow) (Some bright) w')
  | (Raise e, w') => (cs, (Raise e, w'))
  end.

(** The world a call of [run] ends in, and how it ends. *)
Definition call_outcome (c : call) : result unit * World :=
  run (call_step c) (call_context c) (call_world c).

(** *** The script *)

Section Script.

(** [exec] of a Python text in an empty namespace: the exception it
    raises, or the string bindings it leaves.  The interpreter is not
    part of the script. *)
Variable py_exec : string -> exn + gmap string string.

(** [exec(text, d)]: the bindings go into the dict [d]. *)
Definition exec (text : string) (d : nat) : M World unit :=
  fun w =>
    match py_exec text with
    | inl e => (Raise e, w)
    | inr bindings => (Ok tt, set_heap (<[d := bindings ∪ dict_at d w]> (heap w)) w)
    end.

Definition get_package_version (pkgname : string) : M World string :=
  let* ctx := new_dict in
  let* text := read_text (lower pkgname +:+ "/__version__.py") in
  exec (universal_newlines text) ctx >>
  getitem ctx "__version__".

Definition BumpVersionPackage_get_version (context : nat) : M World string :=
  let* pkgname := getitem context "pkgname" in
  get_package_version pkgname.

Definition BumpVersionPackage_post (context : nat) : M World unit :=
  wait_for_enter >>
  let* version := BumpVersionPackage_get_version context in
  setitem context "version" version.

Definition BumpVersionPackage : Step :=
  mkStep Step_pre
    (fun context =>
       instruct "Update __version__.py with new version" >>
       let* pkgname := getitem context "pkgname" in
       print_run ("vi " +:+ pkgname +:+ "/__version__.py"))
    BumpVersionPackage_post.

Definition procedure : list (string * Step) :=
  [ ("gittomaster", GitToMaster);
    ("gitadd1", GitAdd);
    ("clean1", MakeClean);
    ("docs1", MakeDocs);
    ("runtests", RunTests);
    ("push1", PushToGitHub);
    ("travis1", WaitForTravis);
    ("waitrtd", WaitForRTD);
    ("bumpversion", BumpVersionPackage);
    ("gitadd2", GitAdd);
    ("gittagpre", GitTagPreRelease);
    ("push2", PushToGitHub);
    ("travis2", WaitForTravis);
    ("changelog", UpdateChangelog);
    ("clean2", MakeClean);
    ("docs2", MakeDocs);
    ("dist", MakeDist);
    ("testpypi", PushToTestPyPI);
    ("install", InstallFromTestPyPI);
    ("testpkg", TestPackage);
    ("deactivate", DeactivateVenv);
    ("addrelease", GitAddRelease);
    ("pypi", PushToPyPI);
    ("tagfinal", GitTagVersion);
    ("push3", PushToGitHub);
    ("travis3", WaitForTravis) ].

(** The metadata resolver: the three lines of [main] that make the
    context and put [pkgname] and [version] into it. *)
Definition seed_context : M World nat :=
  let* context := new_dict in
  let* pkgname := get_package_name in
  setitem context "pkgname" pkgname >>
  let* pkgname' := getitem context "pkgname" in
  let* version := get_package_version pkgname' in
  setitem context "version" version >>
  ret context.

(** [colorama.init()] changes nothing that is modelled. *)
Definition colorama_init : M World unit := ret tt.

Definition main (target : option string) : M World unit :=
  colorama_init >>
  let* context := seed_context in
  execute procedure context target.

(** [main] with the record of the calls of [run]. *)
Definition main_calls (target : option string) (w : World)
    : list call * (result unit * World) :=
  match (colorama_init >> seed_context) w with
  | (Ok context, w') => execute_calls procedure context target w'
  | (Raise e, w') => ([], (Raise e, w'))
  end.

(** The last two lines of the file. *)
Definition script (argv : list string) : M World unit :=
  let target :=
    if bool_decide (1 < length argv)%nat then argv !! 1%nat else None in
  main target.

End Script.

(** *** Reading the record of calls *)

(** The procedure entry a call was made for. *)
Definition call_entry (c : call) : string * Step := (call_name c, call_step c).

Definition names (procedure : list (string * Step)) : list string :=
  map fst procedure.

(** The final message of the runner. *)
Definition done_message : event :=
  Printed (colored (String LF "Done!") (Some yellow) (Some bright)).

Definition interrupted_message : event :=
  Printed (colored (String LF "Interrupted.") (Some red) None).

(** The path [get_package_version] reads for a package name. *)
Definition version_path (pkgname : string) : string :=
  lower pkgname +:+ "/__version__.py".

(** *** Sample data

    A stand-in for the interpreter on the version files of the examples:
    a line [name = "text"] binds [name], a blank line does nothing and any
    other line raises. *)
Definition assignment (l : string) : option (string * string) :=
  match split "=" l with
  | [k; v] => Some (strip k, strip_char DQUOTE (strip v))
  | _ => None
  end.

Fixpoint exec_lines (ls : list string) : exn + gmap string string :=
  match ls with
  | [] => inr ∅
  | l :: ls' =>
      if bool_decide (strip l = EmptyString) then exec_lines ls'
      else
        match assignment l with
        | None => inl (OtherError "error while executing")
        | Some (k, v) =>
            match exec_lines ls' with
            | inl e => inl e
            | inr m => inr (<[k := v]> m)
            end
        end
  end.

Definition exec_assignments (text : string) : exn + gmap string string :=
  exec_lines (readlines text).

Definition quoted (s : string) : string :=
  String DQUOTE (s +:+ String DQUOTE EmptyString).

Definition line (s : string) : string := s +:+ String LF EmptyString.

(** A project [demo] at version 1.2.3. *)
Definition demo_files : gmap string string :=
  <["./setup.py" := line "import os" +:+ line ("NAME = " +:+ quoted "demo")]>
  (<["demo/__version__.py" := line ("__version__ = " +:+ quoted "1.2.3")]> ∅).

(** A world with the given files and operator, commands that change no
    file and succeed, no dict and nothing done yet. *)
Definition world_of (fs : gmap string string) (ops : list operator_event)
    : World :=
  mkWorld fs ops (fun _ f => f) (fun _ _ => 0) ∅ [].

Definition press_enter : operator_event := TypeLine EmptyString.

(** Two steps that read nothing from the context. *)
Definition two_steps : list (string * Step) :=
  [("gitadd1", GitAdd); ("deactivate", DeactivateVenv)].

(** The operator sets the version file to 1.3.0. *)
Definition release_1_3_0 : operator_event :=
  Edit "demo/__version__.py" (line ("__version__ = " +:+ quoted "1.3.0")).

(** The world the runner starts in for the project [demo]; its context is
    the dict at address 0. *)
Definition demo_seeded (ops : list operator_event) : World :=
  snd (seed_context exec_assignments (world_of demo_files ops)).

Definition bump_then_tag : list (string * Step) :=
  [("bumpversion", BumpVersionPackage exec_assignments);
   ("gittagpre", GitTagPreRelease)].

Definition demo_ops : list operator_event :=
  [release_1_3_0; press_enter; press_enter].

(** The two calls of [run] that [bump_then_tag] gets in that world. *)
Definition bump_call : call :=
  mkCall "bumpversion" (BumpVersionPackage exec_assignments) 0
         (demo_seeded demo_ops).

Definition tag_call : call :=
  mkCall "gittagpre" GitTagPreRelease 0
    (snd (run (BumpVersionPackage exec_assignments) 0 (demo_seeded demo_ops))).

(** The call of [run] during which the operator interrupts, when
    [two_steps] is run and the operator confirms the first step only. *)
Definition interrupted_call : call :=
  mkCall "deactivate" DeactivateVenv 0
         (snd (run GitAdd 0 (world_of ∅ [press_enter; CtrlC]))).

(** The project [demo] with a version file that binds [__version__] and
    then raises. *)
Definition raising_version_files : gmap string string :=
  <["demo/__version__.py" :=
      line ("__version__ = " +:+ quoted "1.2.3") +:+ line "1/0"]> demo_files.

(** The project [demo] without its version file. *)
Definition missing_version_files : gmap string string :=
  <["./setup.py" := line "import os" +:+ line ("NAME = " +:+ quoted "demo")]> ∅.

(** The operator sets the version and confirms. *)
Definition bump_ops : list operator_event := [release_1_3_0; press_enter].

(** *** Statements the code is compared with *)

(** Without a target every entry is run, in order, each once. *)
Definition no_target_runs_every_entry : Prop :=
  forall (P : list (string * Step)) (context : nat) (w : World),
    map call_entry (fst (execute_calls P context None w)) = P.

(** Resuming at a target that names an entry runs exactly the entries from
    that one on. *)
Definition resume_runs_suffix_for_every_target : Prop :=
  forall (P : list (string * Step)) (context : nat) (t : string) (i : nat)
         (s : Step) (w : World),
    NoDup (names P) -> P !! i = Some (t, s) ->
    fst (snd (execute_calls P context (Some t) w)) = Ok tt ->
    map call_entry (fst (execute_calls P context (Some t) w)) = drop i P.

(** A target that names no entry runs nothing and ends normally with the
    final message. *)
Definition absent_target_runs_nothing : Prop :=
  forall (P : list (string * Step)) (context : nat) (t : string) (w : World),
    t ∉ names P ->
    execute_calls P context (Some t) w = ([], (Ok tt, emit done_message w)).

(** The runner starts skipping exactly when a target is given. *)
Definition skip_iff_target_given : Prop :=
  forall target : option string,
    initial_skip target = true <-> target <> None.

(** *** The [post] of the version-capture step, in the other order

    First the capture (the version file is read again and [version]
    overwritten), then the wait for the operator. *)
Definition post_capture_then_wait (py_exec : string -> exn + gmap string string)
    (context : nat) : M World unit :=
  let* version := BumpVersionPackage_get_version py_exec context in
  setitem context "version" version >>
  wait_for_enter.

Definition bump_post_captures_then_waits : Prop :=
  forall (py_exec : string -> exn + gmap string string) (context : nat)
         (w : World),
    BumpVersionPackage_post py_exec context w
    = post_capture_then_wait py_exec context w.

(** *** The failures of the metadata resolver *)

(** The descriptor has no line that starts with [NAME = ]. *)
Definition no_name_line (w : World) : Prop :=
  exists text, files w !! "./setup.py" = Some text /\
    List.find (fun l => startswith l "NAME = ") (readlines text) = None.

(** The version file of the package, executed, binds no [__version__]. *)
Definition no_version_binding (py_exec : string -> exn + gmap string string)
    (w : World) : Prop :=
  exists pkgname text bindings,
    fst (get_package_name w) = Ok pkgname /\
    files w !! version_path pkgname = Some text /\
    py_exec (universal_newlines text) = inr bindings /\
    bindings !! "__version__" = None.

(** The not-found conditions of Python: the file is not there
    ([FileNotFoundError]), the key is not in the dict ([KeyError]), the
    object has no such attribute ([AttributeError], which is how a missing
    [NAME] line shows: [None] has no [split]). *)
Definition not_found (e : exn) : Prop :=
  match e with
  | FileNotFoundError _ | KeyError _ | AttributeError _ => True
  | _ => False
  end.

(** The resolver fails with a not-found condition in exactly two cases. *)
Definition resolver_fails_in_exactly_two_cases : Prop :=
  forall (py_exec : string -> exn + gmap string string) (w : World),
    (exists e, not_found e /\ fst (seed_context py_exec w) = Raise e)
    <-> no_name_line w \/ no_version_binding py_exec w.

(** The cases in which the resolver fails, each with its exception: the
    descriptor is not there; it has no [NAME] line; the version file is
    not there; executing it raises; it leaves no [__version__]. *)
Definition resolver_case (py_exec : string -> exn + gmap string string)
    (w : World) (e : exn) : Prop :=
  (files w !! "./setup.py" = None /\ e = FileNotFoundError "./setup.py")
  \/ (no_name_line w
      /\ e = AttributeError "'NoneType' object has no attribute 'split'")
  \/ (exists pkgname,
        fst (get_package_name w) = Ok pkgname
        /\ ((files w !! version_path pkgname = None
             /\ e = FileNotFoundError (version_path pkgname))
            \/ (exists text,
                  files w !! version_path pkgname = Some text
                  /\ py_exec (universal_newlines text) = inl e)
            \/ (no_version_binding py_exec w
                /\ e = KeyError "__version__"))).

(** *** Independence of the exit statuses

    A computation that behaves the same whatever statuses the spawned
    commands return: same outcome, same final world but for the
    statuses. *)
Definition status_blind {A} (m : M World A) : Prop :=
  forall (x : list event -> string -> Z) (w : World),
    m (set_exit_status x w)
    = (fst (m w), set_exit_status x (snd (m w))).

(** A step all of whose phases are blind to the statuses. *)
Definition blind_step (s : Step) : Prop :=
  forall context,
    status_blind (pre s context)
    /\ status_blind (action s context)
    /\ status_blind (post s context).

(** *** More ways to read what a computation does *)

(** A computation that leaves every dict as it is. *)
Definition keeps_heap {A} (m : M World A) : Prop :=
  forall w, heap (snd (m w)) = heap w.

(** The context has the two keys the resolver puts into it. *)
Definition seeded (context : nat) (w : World) : Prop :=
  is_Some (dict_at context w !! "pkgname")
  /\ is_Some (dict_at context w !! "version").

(** What a wait for the operator can raise. *)
Definition wait_failure (e : exn) : Prop :=
  e = KeyboardInterrupt \/ e = EOFError.

(** A computation that, on a context with its two keys, raises only what a
    wait raises. *)
Definition fails_only_waiting (context : nat) {A} (m : M World A) : Prop :=
  forall w e, seeded context w -> fst (m w) = Raise e -> wait_failure e.

(** What reading the version again can raise: the file is not there, it
    binds no [__version__], or executing it raises. *)
Definition reread_failure (py_exec : string -> exn + gmap string string)
    (e : exn) : Prop :=
  (exists path, e = FileNotFoundError path)
  \/ e = KeyError "__version__"
  \/ (exists text, py_exec text = inl e).

(** The two events with which [do_cmd] asks before it runs a command. *)
Definition going_to_run (cmd : string) : event :=
  Printed (colored ("Going to run: " +:+ cmd) (Some magenta) (Some bright)).

Definition enter_prompt : event :=
  Prompted (colored (String LF "Press Enter to continue") None (Some dim)).

Definition is_spawn (e : event) : bool :=
  match e with Spawned _ => true | _ => false end.

(** Every command spawned in a stretch of the trace comes right after its
    announcement, the prompt and the empty line printed once the operator
    has pressed Enter. *)
Definition spawns_confirmed (evs : list event) : Prop :=
  forall (i : nat) (cmd : string),
    evs !! i = Some (Spawned cmd) ->
    exists j : nat,
      i = (j + 3)%nat
      /\ evs !! j = Some (going_to_run cmd)
      /\ evs !! (j + 1)%nat = Some enter_prompt
      /\ evs !! (j + 2)%nat = Some (Printed EmptyString).

(** The same, by the way such a stretch is built. *)
Inductive guarded : list event -> Prop :=
| guarded_nil : guarded []
| guarded_quiet (e : event) (evs : list event) :
    is_spawn e = false -> guarded evs -> guarded (e :: evs)
| guarded_spawn (cmd : string) (evs : list event) :
    guarded evs ->
    guarded (going_to_run cmd :: enter_prompt :: Printed EmptyString
             :: Spawned cmd :: evs).

Definition appends_guarded {A} (m : M World A) : Prop :=
  forall w, exists evs, trace (snd (m w)) = trace w ++ evs /\ guarded evs.

(** [c in s] for a character. *)
Fixpoint has_char (c : ascii) (s : string) : bool :=
  match s with
  | EmptyString => false
  | String c' s' => ascii_eqb c' c || has_char c s'
  end.

(** A name that neither starts nor ends with a double quote. *)
Definition unquoted (name : string) : Prop :=
  (forall s, name <> String DQUOTE s)
  /\ (forall s, name <> s +:+ String DQUOTE EmptyString).

(** More sample data: a descriptor whose name has an equals sign in it,
    and a first call of the procedure in the world the resolver leaves for
    the project [demo] and an operator who does nothing. *)
Definition equals_files : gmap string string :=
  <["./setup.py" := line ("NAME = " +:+ quoted "cli=demo")]> ∅.

Definition first_call : call :=
  mkCall "gittomaster" GitToMaster 0
    (snd (seed_context exec_assignments (world_of demo_files []))).

End MakeRelease.

(** ** [clevercsv/wrappers.py]: [csv2df] *)

Module Wrappers.
Import Py.
Local Open Scope py_scope.

(** What a path refers to. *)
Inductive node : Type :=
| RegularFile (bytes : string)
| Directory.

(** The file system, and the paths opened so far, in order. *)
Record World : Type := mkWorld {
  nodes : gmap string node;
  opened : list string
}.

Definition os_path_exists (path : string) : M World bool :=
  fun w => (Ok (bool_decide (is_Some (nodes w !! path))), w).

Definition os_path_isfile (path : string) : M World bool :=
  fun w =>
    (Ok match nodes w !! path with
        | Some (RegularFile _) => true
        | _ => false
        end, w).

Definition is_regular_file (path : string) (w : World) : Prop :=
  exists bytes, nodes w !! path = Some (RegularFile bytes).

Section Csv2df.

(** What [csv2df] takes from elsewhere: the encoding detector of
    [clevercsv.utils], the dialect detector of [clevercsv.detect], the
    decoding done by [open], and pandas' [read_csv]. *)
Variables encoding dialect csv_dialect arguments dataframe : Type.
Variable get_encoding : string -> M World encoding.
Variable decode : encoding -> string -> exn + string.
Variable Detector_detect : string -> M World dialect.
Variable to_csv_dialect : dialect -> csv_dialect.
Variable pd_read_csv : string -> arguments -> csv_dialect -> M World dataframe.

(** [with open(path, "r", newline=..., encoding=enc) as fid: fid.read()] *)
Definition read_file (path : string) (enc : encoding) : M World string :=
  fun w =>
    match nodes w !! path with
    | None => (Raise (FileNotFoundError path), w)
    | Some Directory => (Raise (OtherError "IsADirectoryError"), w)
    | Some (RegularFile bytes) =>
        let w' := mkWorld (nodes w) (opened w ++ [path]) in
        match decode enc bytes with
        | inl e => (Raise e, w')
        | inr text => (Ok text, w')
        end
    end.

(** [csv2df] from the line after its check. *)
Definition csv2df_read (filename : string) (args : arguments)
    : M World dataframe :=
  let* enc := get_encoding filename in
  let* text := read_file filename enc in
  let* dialect := Detector_detect text in
  let csv_dialect := to_csv_dialect dialect in
  pd_read_csv filename args csv_dialect.

Definition csv2df (filename : string) (args : arguments) : M World dataframe :=
  let* exists_ := os_path_exists filename in
  let* regular := if exists_ then os_path_isfile filename else ret false in
  if negb regular then raise (ValueError "Filename must be a regular file")
  else csv2df_read filename args.

End Csv2df.

(** *** Sample data

    A file, a directory, and stand-ins for what [csv2df] takes from
    elsewhere. *)
Definition sample_nodes : gmap string node :=
  <["data.csv" := RegularFile "a;b"]> (<["reports" := Directory]> ∅).

Definition sample_csv2df : string -> unit -> M World string :=
  csv2df string string string unit string
    (fun _ => ret "utf-8") (fun _ bytes => inr bytes)
    (fun text => ret ";") (fun d => d)
    (fun filename _ d => ret (filename +:+ " read with delimiter " +:+ d)).

(** The text from a position on. *)
Fixpoint text_from (pos : nat) (text : string) : string :=
  match pos, text with
  | O, _ => text
  | S _, EmptyString => EmptyString
  | S n, String _ rest => text_from n rest
  end.

Section ReadAsLol.

Variables encoding dialect row : Type.
Variable get_encoding : string -> M World encoding.
Variable decode : encoding -> string -> exn + string.
Variable Detector_detect : string -> bool -> M World dialect.

(** A file object opened for reading text: the bytes of the file, the
    encoding, and the position reached in the text. *)
Record file : Type := mkFile {
  file_bytes : string;
  file_encoding : encoding;
  file_pos : nat
}.

(** [list(reader(fid, dialect))]: the rows the reader of [clevercsv.read]
    makes of a file object, from the position the object is at. *)
Variable reader_list : file -> dialect -> M World (list row).

(** [open(path, "r", newline=..., encoding=enc)] *)
Definition open_text (path : string) (enc : encoding) : M World file :=
  fun w =>
    match nodes w !! path with
    | None => (Raise (FileNotFoundError path), w)
    | Some Directory => (Raise (OtherError "IsADirectoryError"), w)
    | Some (RegularFile bytes) =>
        (Ok (mkFile bytes enc 0), mkWorld (nodes w) (opened w ++ [path]))
    end.

(** [fid.read()]: the text from the position on; the position moves to the
    end. *)
Definition fid_read (fid : file) : exn + string * file :=
  match decode (file_encoding fid) (file_bytes fid) with
  | inl e => inl e
  | inr text =>
      inr (text_from (file_pos fid) text,
           mkFile (file_bytes fid) (file_encoding fid) (String.length text))
  end.

(** [fid.seek(pos)] *)
Definition fid_seek (pos : nat) (fid : file) : file :=
  mkFile (file_bytes fid) (file_encoding fid) pos.

Definition read_as_lol (filename : string) (dialect_arg : option dialect)
    (verbose : bool) : M World (list row) :=
  let* enc := get_encoding filename in
  let* fid := open_text filename enc in
  let* chosen :=
    match dialect_arg with
    | None =>
        match fid_read fid with
        | inl e => raise e
        | inr (text, fid') =>
            let* detected := Detector_detect text verbose in
            ret (detected, fid_seek 0 fid')
        end
    | Some given => ret (given, fid)
    end in
  reader_list (snd chosen) (fst chosen).

End ReadAsLol.

(** A stand-in reader for the examples: one row, holding the dialect and
    the text from the position of the file object on. *)
Definition sample_read_as_lol
    : string -> option string -> bool -> M World (list (list string)) :=
  read_as_lol string string (list string)
    (fun _ => ret "utf-8") (fun _ bytes => inr bytes)
    (fun text _ => ret ";")
    (fun fid d => ret [[d; text_from (file_pos string fid)
                            (file_bytes string fid)]]).

End Wrappers.

(** * Properties of the release runner *)

Import Py MakeRelease.
Local Open Scope py_scope.

(** ** The record of calls does not change what the runner does *)

Lemma loop_calls_erase (P : list (string * Step)) (context : nat)
    (target : option string) (skip : bool) (w : World) :
  snd (loop_calls P context target skip w) = loop P context target skip w.
Proof.
  revert skip w.
  induction P as [|[name step] rest IH]; intros skip w; simpl; [done|].
  destruct (negb (eq_opt name target) && skip); [apply IH|].
  unfold bind. destruct (run step context w) as [[u|e] w']; simpl; [|done].
  rewrite <- IH. by destruct (loop_calls rest context target false w').
Qed.

Lemma execute_calls_erase (P : list (string * Step)) (context : nat)
    (target : option string) (w : World) :
  snd (execute_calls P context target w) = execute P context target w.
Proof.
  unfold execute_calls, execute, bind.
  rewrite <- loop_calls_erase.
  destruct (loop_calls P context target (initial_skip target) w)
    as [cs [[u|e] w']]; simpl; [|done].
  by destruct (cprint _ _ _ w').
Qed.

Lemma main_calls_erase (py_exec : string -> exn + gmap string string)
    (target : option string) (w : World) :
  snd (main_calls py_exec target w) = main py_exec target w.
Proof.
  unfold main_calls, main, bind, colorama_init, ret.
  destruct (seed_context py_exec w) as [[context|e] w']; simpl; [|done].
  apply execute_calls_erase.
Qed.

(** ** The loop, once it no longer skips *)

Lemma loop_calls_running (P : list (string * Step)) (context : nat)
    (target : option string) (w : World) :
  map call_entry (fst (loop_calls P context target false w)) `prefix_of` P
  /\ (fst (snd (loop_calls P context target false w)) = Ok tt ->
      map call_entry (fst (loop_calls P context target false w)) = P).
Proof.
  revert w.
  induction P as [|[name step] rest IH]; intros w; simpl.
  { split; [by exists []|done]. }
  rewrite andb_false_r.
  destruct (run step context w) as [[u|e] w'].
  - destruct (IH w') as [Hpre Hall].
    destruct (loop_calls rest context target false w') as [cs out]; simpl in *.
    split.
    + by apply prefix_cons.
    + intros Hok. by rewrite Hall.
  - simpl. split; [|done].
    apply prefix_cons, prefix_nil.
Qed.

(** The loop skips every entry before the first one named like the
    target. *)
Lemma loop_calls_skipping (before rest : list (string * Step)) (context : nat)
    (t : string) (w : World) :
  t ∉ names before ->
  loop_calls (before ++ rest) context (Some t) true w
  = loop_calls rest context (Some t) true w.
Proof.
  induction before as [|[name step] before IH]; intros Hnot; simpl; [done|].
  unfold names in Hnot. simpl in Hnot.
  apply not_elem_of_cons in Hnot as [Hne Hnot].
  rewrite bool_decide_eq_false_2 by congruence. simpl.
  by apply IH.
Qed.

Lemma loop_calls_at_target (t : string) (s : Step)
    (rest : list (string * Step)) (context : nat) (w : World) :
  loop_calls ((t, s) :: rest) context (Some t) true w
  = loop_calls ((t, s) :: rest) context (Some t) false w.
Proof. simpl. by rewrite bool_decide_eq_true_2. Qed.

Lemma loop_calls_never_reached (P : list (string * Step)) (context : nat)
    (t : string) (w : World) :
  t ∉ names P ->
  loop_calls P context (Some t) true w = ([], (Ok tt, w)).
Proof.
  intros Hnot.
  rewrite <- (app_nil_r P). by rewrite loop_calls_skipping.
Qed.

(** What [execute] adds to the loop. *)
Lemma execute_calls_fst (P : list (string * Step)) (context : nat)
    (target : option string) (w : World) :
  fst (execute_calls P context target w)
  = fst (loop_calls P context target (initial_skip target) w).
Proof.
  unfold execute_calls.
  by destruct (loop_calls P context target (initial_skip target) w)
    as [cs [[u|e] w']].
Qed.

Lemma execute_calls_ok (P : list (string * Step)) (context : nat)
    (target : option string) (w : World) :
  fst (snd (execute_calls P context target w)) = Ok tt ->
  fst (snd (loop_calls P context target (initial_skip target) w)) = Ok tt.
Proof.
  unfold execute_calls.
  destruct (loop_calls P context target (initial_skip target) w)
    as [cs [[[]|e] w']]; simpl; [done|].
  intros; discriminate.
Qed.

Lemma initial_skip_nonempty (t : string) :
  t <> EmptyString -> initial_skip (Some t) = true.
Proof. by destruct t. Qed.

(** A name found at a position of a procedure with unique names is not
    the name of an earlier entry. *)
Lemma unique_name_not_before (P : list (string * Step)) (i : nat)
    (t : string) (s : Step) :
  NoDup (names P) -> P !! i = Some (t, s) ->
  P = take i P ++ (t, s) :: drop (S i) P /\ t ∉ names (take i P).
Proof.
  intros Hnd Hi.
  assert (P = take i P ++ (t, s) :: drop (S i) P) as HP.
  { by rewrite <- (take_drop_middle P i (t, s)) at 1. }
  split; [done|].
  rewrite HP in Hnd. unfold names in *.
  rewrite map_app in Hnd. simpl in Hnd.
  apply NoDup_app in Hnd as (_ & Hdisj & _).
  intros Hin. apply (Hdisj t Hin). left.
Qed.

(** ** Which entries are run *)

(** A given name is none of the given names. *)
Ltac not_a_name :=
  unfold names; simpl; rewrite ?not_elem_of_cons;
  repeat split; first [discriminate | apply not_elem_of_nil].

(** C2, as amended.  Without a target the runner calls [run] on the
    entries of the procedure in their order, each once: the calls made are
    always an initial segment of the procedure (a step that raises ends
    the run), and they are the whole procedure when the run ends
    normally. *)
Theorem run_all_without_target (P : list (string * Step)) (context : nat)
    (w : World) :
  map call_entry (fst (execute_calls P context None w)) `prefix_of` P
  /\ (fst (snd (execute_calls P context None w)) = Ok tt ->
      map call_entry (fst (execute_calls P context None w)) = P).
Proof.
  rewrite execute_calls_fst. simpl.
  destruct (loop_calls_running P context None w) as [Hpre Hall].
  split; [done|].
  intros Hok. apply Hall. by apply execute_calls_ok in Hok.
Qed.

Lemma run_all_without_target_witness :
  fst (snd (execute_calls two_steps 0 None
              (world_of ∅ [press_enter; press_enter]))) = Ok tt
  /\ map call_entry
       (fst (execute_calls two_steps 0 None
               (world_of ∅ [press_enter; press_enter])))
     = two_steps.
Proof.
  assert (fst (snd (execute_calls two_steps 0 None
                      (world_of ∅ [press_enter; press_enter]))) = Ok tt)
    as Hok by (vm_compute; reflexivity).
  split; [exact Hok|].
  exact (proj2 (run_all_without_target two_steps 0
                  (world_of ∅ [press_enter; press_enter])) Hok).
Defined.

(** C2, as stated, fails: the operator interrupts the first of two steps;
    [run] is called on that one only, the second entry is never run. *)
Lemma interrupted_run_stops_early : ~ no_target_runs_every_entry.
Proof.
  intros H.
  specialize (H two_steps 0%nat (world_of ∅ [CtrlC])).
  apply (f_equal length) in H.
  vm_compute in H. discriminate.
Qed.

(** C1, as amended.  For a procedure with unique names and a non-empty
    target that names its entry [i], the runner calls [run] on the entries
    from [i] on, in their order: the calls made are always an initial
    segment of that suffix, they are the whole suffix when the run ends
    normally, and no entry before [i] is ever called. *)
Theorem resume_from_target (P : list (string * Step)) (context : nat)
    (t : string) (i : nat) (s : Step) (w : World) :
  NoDup (names P) -> P !! i = Some (t, s) -> t <> EmptyString ->
  map call_entry (fst (execute_calls P context (Some t) w)) `prefix_of` drop i P
  /\ (fst (snd (execute_calls P context (Some t) w)) = Ok tt ->
      map call_entry (fst (execute_calls P context (Some t) w)) = drop i P)
  /\ (forall j e, (j < i)%nat -> P !! j = Some e ->
      fst e ∉ map call_name (fst (execute_calls P context (Some t) w))).
Proof.
  intros Hnd Hi Ht.
  destruct (unique_name_not_before P i t s Hnd Hi) as [HP Hnot].
  assert (drop i P = (t, s) :: drop (S i) P) as Hdrop.
  { by apply drop_S. }
  pose proof (execute_calls_ok P context (Some t) w) as Hok.
  rewrite execute_calls_fst, initial_skip_nonempty in * by done.
  assert (loop_calls P context (Some t) true w
          = loop_calls (drop i P) context (Some t) false w) as Hloop.
  { rewrite HP at 1. rewrite loop_calls_skipping by done.
    rewrite loop_calls_at_target. by rewrite Hdrop. }
  rewrite Hloop in *.
  destruct (loop_calls_running (drop i P) context (Some t) w) as [Hpre Hall].
  split; [done|]. split; [auto|].
  intros j e Hj He Hin.
  assert (fst e ∈ names (drop i P)) as Hlate.
  { destruct Hpre as [k Hk]. unfold names. rewrite Hk, map_app.
    apply elem_of_app. left.
    rewrite list_elem_of_fmap in Hin. destruct Hin as (c & Hc & Hcin).
    rewrite list_elem_of_fmap. exists (call_entry c). split; [done|].
    rewrite list_elem_of_fmap. by exists c. }
  assert (fst e ∈ names (take i P)) as Hearly.
  { unfold names. rewrite list_elem_of_fmap. exists e. split; [done|].
    apply list_elem_of_lookup. exists j. by rewrite lookup_take_lt. }
  rewrite <- (take_drop i P) in Hnd. unfold names in *.
  rewrite map_app in Hnd.
  apply NoDup_app in Hnd as (_ & Hdisj & _).
  by apply (Hdisj (fst e)).
Qed.

Lemma resume_from_target_witness :
  map call_entry
    (fst (execute_calls two_steps 0 (Some "deactivate")
            (world_of ∅ [press_enter])))
  = drop 1 two_steps.
Proof.
  refine (proj1 (proj2 (resume_from_target two_steps 0 "deactivate" 1
            DeactivateVenv (world_of ∅ [press_enter]) _ _ _)) _).
  - unfold names; simpl. apply NoDup_cons. split; [not_a_name|].
    apply NoDup_singleton.
  - reflexivity.
  - discriminate.
  - vm_compute. reflexivity.
Defined.

(** C1, as stated, fails when the target is the empty string: the runner
    does not skip, and the entry before the one named by the empty string
    is run as well. *)
Lemma resume_at_empty_target_runs_all : ~ resume_runs_suffix_for_every_target.
Proof.
  intros H.
  specialize (H [("gitadd1", GitAdd); (EmptyString, DeactivateVenv)] 0%nat
                EmptyString 1%nat DeactivateVenv
                (world_of ∅ [press_enter; press_enter])).
  apply (f_equal length) in H.
  - vm_compute in H. discriminate.
  - unfold names; simpl. apply NoDup_cons. split; [not_a_name|].
    apply NoDup_singleton.
  - reflexivity.
  - vm_compute. reflexivity.
Qed.

(** C3, as amended.  With a non-empty target that names no entry the
    runner calls [run] on nothing, ends normally, and all it does is print
    the final message. *)
Theorem absent_target_is_noop (P : list (string * Step)) (context : nat)
    (t : string) (w : World) :
  t <> EmptyString -> t ∉ names P ->
  execute_calls P context (Some t) w = ([], (Ok tt, emit done_message w)).
Proof.
  intros Ht Hnot. unfold execute_calls.
  rewrite initial_skip_nonempty by done.
  by rewrite loop_calls_never_reached.
Qed.

Lemma absent_target_is_noop_witness :
  execute_calls two_steps 0 (Some "z") (world_of ∅ [])
  = ([], (Ok tt, emit done_message (world_of ∅ []))).
Proof.
  apply (absent_target_is_noop two_steps 0 "z" (world_of ∅ [])).
  - discriminate.
  - not_a_name.
Defined.

(** C3, as stated, fails for the empty string, a target that is given and
    names no entry: every entry is run. *)
Lemma empty_target_runs_everything : ~ absent_target_runs_nothing.
Proof.
  intros H.
  specialize (H two_steps 0%nat EmptyString
                (world_of ∅ [press_enter; press_enter])).
  apply (f_equal (fun r => length (fst r))) in H.
  - vm_compute in H. discriminate.
  - not_a_name.
Qed.

(** C4, as amended.  [skip] starts true exactly when the target is
    neither omitted nor the empty string; without a target, and with the
    empty one, the first call of [run] is on the first entry, in the world
    the runner started in. *)
Theorem skip_iff_target_truthy :
  (forall target : option string,
     initial_skip target = true
     <-> target <> None /\ target <> Some EmptyString)
  /\ (forall name step rest context w,
        head (fst (execute_calls ((name, step) :: rest) context None w))
        = Some (mkCall name step context w))
  /\ (forall name step rest context w,
        head (fst (execute_calls ((name, step) :: rest) context
                     (Some EmptyString) w))
        = Some (mkCall name step context w)).
Proof.
  split; [|split].
  - intros [[|c s]|]; simpl; split; try done.
    + by intros [_ ?].
    + by intros [? _].
  - intros name step rest context w. rewrite execute_calls_fst. simpl.
    destruct (run step context w) as [[u|e] w']; [|done].
    by destruct (loop_calls rest context None false w').
  - intros name step rest context w. rewrite execute_calls_fst. simpl.
    rewrite andb_false_r.
    destruct (run step context w) as [[u|e] w']; [|done].
    by destruct (loop_calls rest context (Some EmptyString) false w').
Qed.

(** C4, as stated, fails: the empty string is a target that is not
    [None], and [skip] starts false for it. *)
Lemma empty_target_does_not_skip : ~ skip_iff_target_given.
Proof.
  intros H. destruct (H (Some EmptyString)) as [_ Hskip].
  discriminate Hskip. discriminate.
Qed.

(** A call that returns normally is recorded and the loop goes on from
    the world it left. *)
Lemma loop_calls_cons_ok (name : string) (step : Step)
    (rest : list (string * Step)) (context : nat) (target : option string)
    (w : World) :
  fst (run step context w) = Ok tt ->
  fst (loop_calls ((name, step) :: rest) context target false w)
  = mkCall name step context w
    :: fst (loop_calls rest context target false (snd (run step context w))).
Proof.
  intros Hok. simpl. rewrite andb_false_r.
  destruct (run step context w) as [[u|e] w']; simpl in *; [|done].
  by destruct (loop_calls rest context target false w').
Qed.

(** ** Interrupts *)

(** A call of [run] that raises is the last call of the loop, and the loop
    ends as that call ended. *)
Lemma loop_calls_raise (P : list (string * Step)) (context : nat)
    (target : option string) (skip : bool) (w : World) (i : nat) (c : call)
    (e : exn) :
  fst (loop_calls P context target skip w) !! i = Some c ->
  fst (call_outcome c) = Raise e ->
  length (fst (loop_calls P context target skip w)) = S i
  /\ snd (loop_calls P context target skip w) = call_outcome c.
Proof.
  revert skip w i.
  induction P as [|[name step] rest IH]; intros skip w i; simpl; [done|].
  destruct (negb (eq_opt name target) && skip); [apply IH|].
  destruct (run step context w) as [[u|e'] w'] eqn:Hrun.
  - pose proof (IH false w') as IH'.
    destruct (loop_calls rest context target false w') as [cs out].
    simpl in *. destruct i as [|i]; simpl.
    + intros [= <-]. unfold call_outcome. simpl. rewrite Hrun. done.
    + intros Hc He. destruct (IH' i Hc He) as [Hlen Hout].
      by rewrite Hlen.
  - simpl. destruct i as [|i]; simpl; [|done].
    intros [= <-] _. unfold call_outcome. simpl. by rewrite Hrun.
Qed.

(** C5.  When the operator interrupts a step (its [pre], [action] or
    [post] raises [KeyboardInterrupt]), [Step.run] itself prints the notice
    and raises [SystemExit(1)] in its place; in the runner that call is
    the last one, and the runner ends the way the call ended, with
    [SystemExit(1)] and nothing done after it. *)
Theorem interrupt_aborts_the_run :
  (forall (s : Step) (context : nat) (w : World),
     fst (lifecycle s context w) = Raise KeyboardInterrupt ->
     run s context w
     = (Raise (SystemExit 1),
        emit interrupted_message (snd (lifecycle s context w))))
  /\ (forall (P : list (string * Step)) (context : nat)
             (target : option string) (w : World) (i : nat) (c : call),
        fst (execute_calls P context target w) !! i = Some c ->
        fst (lifecycle (call_step c) (call_context c) (call_world c))
        = Raise KeyboardInterrupt ->
        length (fst (execute_calls P context target w)) = S i
        /\ snd (execute_calls P context target w) = call_outcome c
        /\ fst (call_outcome c) = Raise (SystemExit 1)).
Proof.
  assert (forall s context w,
    fst (lifecycle s context w) = Raise KeyboardInterrupt ->
    run s context w
    = (Raise (SystemExit 1),
       emit interrupted_message (snd (lifecycle s context w)))) as Hstep.
  { intros s context w Hint. unfold run, try_except.
    destruct (lifecycle s context w) as [[u|e] w']; simpl in *; [done|].
    by inversion Hint. }
  split; [exact Hstep|].
  intros P context target w i c Hc Hint.
  assert (fst (call_outcome c) = Raise (SystemExit 1)) as Hexit.
  { unfold call_outcome. by rewrite Hstep. }
  rewrite execute_calls_fst in *.
  destruct (loop_calls_raise P context target (initial_skip target) w i c
              (SystemExit 1) Hc Hexit) as [Hlen Hout].
  split; [done|]. split; [|done].
  unfold execute_calls.
  destruct (loop_calls P context target (initial_skip target) w)
    as [cs [r w']]; simpl in *.
  rewrite <- Hout in Hexit |- *. simpl in Hexit. by subst r.
Qed.

Lemma interrupt_aborts_the_run_witness :
  length (fst (execute_calls two_steps 0 None
                 (world_of ∅ [press_enter; CtrlC]))) = 2%nat
  /\ snd (execute_calls two_steps 0 None (world_of ∅ [press_enter; CtrlC]))
     = call_outcome interrupted_call
  /\ fst (call_outcome interrupted_call) = Raise (SystemExit 1).
Proof.
  apply (proj2 interrupt_aborts_the_run two_steps 0%nat None
           (world_of ∅ [press_enter; CtrlC]) 1%nat interrupted_call).
  - vm_compute. reflexivity.
  - vm_compute. reflexivity.
Defined.

(** ** One context for all steps *)

Lemma loop_calls_context (P : list (string * Step)) (context : nat)
    (target : option string) (skip : bool) (w : World) (c : call) :
  c ∈ fst (loop_calls P context target skip w) -> call_context c = context.
Proof.
  revert skip w.
  induction P as [|[name step] rest IH]; intros skip w; simpl.
  { by intros ?%elem_of_nil. }
  destruct (negb (eq_opt name target) && skip); [apply IH|].
  destruct (run step context w) as [[u|e] w'].
  - pose proof (IH false w') as IH'.
    destruct (loop_calls rest context target false w') as [cs out].
    simpl in *. intros [->|Hin]%elem_of_cons; [done|auto].
  - simpl. by intros ->%list_elem_of_singleton.
Qed.

Lemma loop_calls_head (P : list (string * Step)) (context : nat)
    (target : option string) (skip : bool) (w : World) (c : call) :
  head (fst (loop_calls P context target skip w)) = Some c ->
  call_world c = w.
Proof.
  revert skip.
  induction P as [|[name step] rest IH]; intros skip; simpl; [done|].
  destruct (negb (eq_opt name target) && skip); [apply IH|].
  destruct (run step context w) as [[u|e] w'].
  - destruct (loop_calls rest context target false w') as [cs out].
    simpl. by intros [= <-].
  - simpl. by intros [= <-].
Qed.

Lemma loop_calls_chain (P : list (string * Step)) (context : nat)
    (target : option string) (skip : bool) (w : World) (i : nat)
    (c c' : call) :
  fst (loop_calls P context target skip w) !! i = Some c ->
  fst (loop_calls P context target skip w) !! S i = Some c' ->
  call_outcome c = (Ok tt, call_world c').
Proof.
  revert skip w i.
  induction P as [|[name step] rest IH]; intros skip w i; simpl; [done|].
  destruct (negb (eq_opt name target) && skip); [apply IH|].
  destruct (run step context w) as [[[]|e] w'] eqn:Hrun.
  - pose proof (IH false w') as IH'.
    pose proof (loop_calls_head rest context target false w') as Hhead.
    destruct (loop_calls rest context target false w') as [cs out].
    simpl in *. destruct i as [|i]; simpl.
    + intros [= <-] Hc'. unfold call_outcome. simpl. rewrite Hrun.
      f_equal. symmetry. apply Hhead. by rewrite head_lookup.
    + apply IH'.
  - simpl. by destruct i.
Qed.

(** C8.  All steps of a run work on one context and nothing comes between
    them: every call of [run] is passed the context the runner was given;
    the first call starts in the world the runner started in; each further
    call starts in exactly the world the call before it left, so with the
    very dict the step before it wrote to; and the value a step leaves
    under a key is the value every later step finds there, as long as the
    steps in between leave that key alone. *)
Theorem context_is_shared (P : list (string * Step)) (context : nat)
    (target : option string) (w : World) :
  (forall c, c ∈ fst (execute_calls P context target w) ->
     call_context c = context)
  /\ (forall c, head (fst (execute_calls P context target w)) = Some c ->
        call_world c = w)
  /\ (forall i c c',
        fst (execute_calls P context target w) !! i = Some c ->
        fst (execute_calls P context target w) !! S i = Some c' ->
        call_outcome c = (Ok tt, call_world c'))
  /\ (forall i j c c' key,
        (i < j)%nat ->
        fst (execute_calls P context target w) !! i = Some c ->
        fst (execute_calls P context target w) !! j = Some c' ->
        (forall m c'', (i < m < j)%nat ->
           fst (execute_calls P context target w) !! m = Some c'' ->
           dict_at context (snd (call_outcome c'')) !! key
           = dict_at context (call_world c'') !! key) ->
        dict_at context (call_world c') !! key
        = dict_at context (snd (call_outcome c)) !! key).
Proof.
  rewrite execute_calls_fst.
  set (cs := fst (loop_calls P context target (initial_skip target) w)).
  assert (forall i c c', cs !! i = Some c -> cs !! S i = Some c' ->
            call_outcome c = (Ok tt, call_world c')) as Hchain.
  { intros i c c'. apply loop_calls_chain. }
  split; [intros c; apply loop_calls_context|].
  split; [intros c; apply loop_calls_head|].
  split; [exact Hchain|].
  intros i j c c' key Hij Hc. revert c'.
  induction j as [|j IH]; intros c' Hc' Hkeep; [lia|].
  destruct (decide (i = j)) as [->|Hne].
  - by rewrite (Hchain j c c' Hc Hc').
  - destruct (cs !! j) as [cj|] eqn:Hcj.
    2:{ apply lookup_ge_None in Hcj. apply lookup_lt_Some in Hc'. lia. }
    rewrite <- (IH ltac:(lia) cj eq_refl).
    + rewrite <- (Hkeep j cj ltac:(lia) Hcj).
      by rewrite (Hchain j cj c' Hcj Hc').
    + intros m c'' Hm. apply Hkeep. lia.
Qed.

Lemma context_is_shared_witness :
  dict_at 0 (call_world tag_call) !! "version"
  = dict_at 0 (snd (call_outcome bump_call)) !! "version".
Proof.
  assert (fst (execute_calls bump_then_tag 0 None (demo_seeded demo_ops))
          = [bump_call; tag_call]) as Hcalls.
  { rewrite execute_calls_fst. unfold bump_then_tag.
    change (initial_skip None) with false.
    rewrite loop_calls_cons_ok by (vm_compute; reflexivity).
    rewrite loop_calls_cons_ok by (vm_compute; reflexivity).
    reflexivity. }
  apply (proj2 (proj2 (proj2 (context_is_shared bump_then_tag 0 None
           (demo_seeded demo_ops)))) 0%nat 1%nat bump_call tag_call "version").
  - lia.
  - by rewrite Hcalls.
  - by rewrite Hcalls.
  - intros m c'' Hm. lia.
Defined.

(** The version the operator sets while the version-capture step waits is
    the one the next step finds in the context. *)
Example version_reaches_the_next_step :
  dict_at 0 (call_world bump_call) !! "version" = Some "1.2.3"
  /\ dict_at 0 (call_world tag_call) !! "version" = Some "1.3.0".
Proof. split; vm_compute; reflexivity. Qed.

(** ** Package metadata and the version-capture step *)

Lemma wait_for_enter_heap (w : World) :
  heap (snd (wait_for_enter w)) = heap w.
Proof.
  unfold wait_for_enter, bind, input, print.
  destruct (await_line _ _) as [[[l|e] evs] fs]; reflexivity.
Qed.

Lemma dict_at_insert (l : nat) (d : gmap string string) (h : gmap nat (gmap string string)) (w : World) :
  dict_at l (set_heap (<[l := d]> h) w) = d.
Proof. unfold dict_at. simpl. by rewrite lookup_insert_eq. Qed.

Lemma dict_at_insert_ne (l l' : nat) (d : gmap string string) (h : gmap nat (gmap string string)) (w : World) :
  l <> l' ->
  dict_at l' (set_heap (<[l := d]> h) w) = default ∅ (h !! l').
Proof. intros. unfold dict_at. simpl. by rewrite lookup_insert_ne. Qed.

Ltac break_cases :=
  repeat match goal with
         | H : _ \/ _ |- _ => destruct H
         | H : _ /\ _ |- _ => destruct H
         | H : exists _, _ |- _ => destruct H
         end;
  simplify_eq.

Section ScriptFacts.

Variable py_exec : string -> exn + gmap string string.

Lemma get_package_version_spec (pkgname : string) (w : World) :
  get_package_version py_exec pkgname w
  = let l := fresh (dom (heap w)) in
    match files w !! version_path pkgname with
    | None =>
        (Raise (FileNotFoundError (version_path pkgname)),
         set_heap (<[l := ∅]> (heap w)) w)
    | Some text =>
        match py_exec (universal_newlines text) with
        | inl e => (Raise e, set_heap (<[l := ∅]> (heap w)) w)
        | inr bindings =>
            (match bindings !! "__version__" with
             | Some v => Ok v
             | None => Raise (KeyError "__version__")
             end,
             set_heap (<[l := bindings]> (heap w)) w)
        end
    end.
Proof.
  unfold get_package_version, bind, new_dict, read_text, exec, getitem.
  simpl. fold (version_path pkgname).
  destruct (files w !! version_path pkgname) as [text|]; [|done].
  destruct (py_exec (universal_newlines text)) as [e|bindings]; [done|].
  rewrite !dict_at_insert. unfold set_heap at 2. simpl.
  rewrite insert_insert_eq, (right_id_L ∅ (∪)).
  unfold set_heap; simpl.
  by destruct (bindings !! "__version__").
Qed.

Lemma get_package_name_spec (w : World) :
  get_package_name w
  = (match files w !! "./setup.py" with
     | None => Raise (FileNotFoundError "./setup.py")
     | Some text =>
         match List.find (fun l => startswith l "NAME = ") (readlines text) with
         | None =>
             Raise (AttributeError "'NoneType' object has no attribute 'split'")
         | Some l =>
             Ok (strip_char DQUOTE (strip (last_item (split "=" (strip l)))))
         end
     end, w).
Proof.
  unfold get_package_name, bind, read_text, next_where.
  destruct (files w !! "./setup.py") as [text|]; [|done].
  by destruct (List.find _ (readlines text)).
Qed.

Lemma seed_context_fst (w : World) :
  fst (seed_context py_exec w)
  = match fst (get_package_name w) with
    | Raise e => Raise e
    | Ok pkgname =>
        match fst (get_package_version py_exec pkgname w) with
        | Raise e => Raise e
        | Ok _ => Ok (fresh (dom (heap w)))
        end
    end.
Proof.
  unfold seed_context, bind, new_dict, setitem, getitem, ret.
  rewrite !get_package_name_spec. simpl.
  destruct (files w !! "./setup.py") as [text|]; [|done].
  destruct (List.find _ (readlines text)) as [l|]; [|done].
  rewrite !dict_at_insert, lookup_insert_eq.
  rewrite !get_package_version_spec. simpl.
  destruct (files w !! version_path _) as [vtext|]; [|done].
  destruct (py_exec (universal_newlines vtext)) as [e|bindings]; [done|].
  by destruct (bindings !! "__version__").
Qed.

Lemma seed_context_quiet (w : World) :
  trace (snd (seed_context py_exec w)) = trace w
  /\ operator (snd (seed_context py_exec w)) = operator w
  /\ files (snd (seed_context py_exec w)) = files w.
Proof.
  unfold seed_context, bind, new_dict, setitem, getitem, ret.
  rewrite !get_package_name_spec. simpl.
  destruct (files w !! "./setup.py") as [text|]; [|done].
  destruct (List.find _ (readlines text)) as [l|]; [|done].
  rewrite !dict_at_insert, lookup_insert_eq.
  rewrite !get_package_version_spec. simpl.
  destruct (files w !! version_path _) as [vtext|]; [|done].
  destruct (py_exec (universal_newlines vtext)) as [e|bindings]; [done|].
  by destruct (bindings !! "__version__").
Qed.

(** With the files of the model (there and readable, or not there) the
    resolver raises [e] exactly in the cases of [resolver_case]. *)
Lemma resolver_case_iff (w : World) (e : exn) :
  fst (seed_context py_exec w) = Raise e <-> resolver_case py_exec w e.
Proof.
  rewrite seed_context_fst.
  unfold resolver_case, no_name_line, no_version_binding.
  rewrite get_package_name_spec. simpl.
  destruct (files w !! "./setup.py") as [text|] eqn:Hsetup.
  2:{ split; [intros [= <-]; by left|]. intros H. by break_cases. }
  destruct (List.find _ (readlines text)) as [l|] eqn:Hfind.
  2:{ split; [intros [= <-]; right; left; eauto|].
      intros H. by break_cases. }
  rewrite get_package_version_spec. simpl.
  destruct (files w !! version_path _) as [vtext|] eqn:Hvfile.
  2:{ split; [intros [= <-]; right; right; eauto 6|].
      intros H. break_cases; first [done|congruence]. }
  destruct (py_exec (universal_newlines vtext)) as [e'|bindings] eqn:Hexec;
    simpl.
  { split; [intros [= <-]; right; right; eauto 8|].
    intros H. break_cases; first [done|congruence]. }
  destruct (bindings !! "__version__") as [v|] eqn:Hv.
  { split; [done|]. intros H. break_cases; first [done|congruence]. }
  split.
  + intros [= <-]. right; right. eexists. split; [done|].
    right; right. split; [|done]. eauto 8.
  + intros H. break_cases; first [done|congruence].
Qed.

(** C7, as amended.  The metadata resolver fails with a not-found
    condition in four cases, not two: the package descriptor is not there
    ([FileNotFoundError]); it has no line that starts with [NAME = ] (an
    [AttributeError], the code's not-found condition for the name); the
    version file is not there ([FileNotFoundError]); it leaves no
    [__version__] binding (a [KeyError]).  Executing the version file can
    raise too, anything.  Each of these cases makes the resolver fail with
    the exception given; a not-found failure of the resolver is always one
    of them; and whatever the resolver raises, [main] ends with it before
    any step is run: no call of [run], nothing printed, the operator not
    asked anything. *)
Theorem resolver_failures (w : World) :
  (forall e : exn,
     resolver_case py_exec w e -> fst (seed_context py_exec w) = Raise e)
  /\ (forall e : exn,
        not_found e -> fst (seed_context py_exec w) = Raise e ->
        resolver_case py_exec w e)
  /\ (forall (e : exn) (target : option string),
        fst (seed_context py_exec w) = Raise e ->
        main_calls py_exec target w
        = ([], (Raise e, snd (seed_context py_exec w)))
        /\ trace (snd (seed_context py_exec w)) = trace w
        /\ operator (snd (seed_context py_exec w)) = operator w).
Proof.
  split; [|split].
  - intros e. apply resolver_case_iff.
  - intros e _. apply resolver_case_iff.
  - intros e target Hfail.
    destruct (seed_context_quiet w) as (Htrace & Hop & _).
    split; [|done].
    unfold main_calls, bind, colorama_init, ret.
    destruct (seed_context py_exec w) as [[c|e'] w']; simpl in *; congruence.
Qed.

(** C6, as amended.  The [post] of the version-capture step first waits
    for the operator and only then captures.  If the wait is broken
    ([KeyboardInterrupt], end of input) the exception goes through and no
    dict is touched.  If the operator confirms, the version file is read as
    it is after the wait, with what the operator did to it meanwhile, and
    its [__version__] overwrites [version] in the context; files, operator
    and console are as the wait left them. *)
Theorem bump_post_waits_then_captures (context : nat) (w : World) :
  (forall e,
     fst (wait_for_enter w) = Raise e ->
     BumpVersionPackage_post py_exec context w
     = (Raise e, snd (wait_for_enter w))
     /\ heap (snd (wait_for_enter w)) = heap w)
  /\ (forall pkgname text bindings version,
        fst (wait_for_enter w) = Ok tt ->
        dict_at context (snd (wait_for_enter w)) !! "pkgname" = Some pkgname ->
        files (snd (wait_for_enter w)) !! version_path pkgname = Some text ->
        py_exec (universal_newlines text) = inr bindings ->
        bindings !! "__version__" = Some version ->
        exists w2,
          BumpVersionPackage_post py_exec context w = (Ok tt, w2)
          /\ dict_at context w2
             = <["version" := version]> (dict_at context (snd (wait_for_enter w)))
          /\ files w2 = files (snd (wait_for_enter w))
          /\ operator w2 = operator (snd (wait_for_enter w))
          /\ trace w2 = trace (snd (wait_for_enter w))).
Proof.
  pose proof (wait_for_enter_heap w) as Hheap.
  destruct (wait_for_enter w) as [r w1] eqn:Hwait. simpl in *.
  split.
  - intros e ->. unfold BumpVersionPackage_post, bind.
    by rewrite Hwait.
  - intros pkgname text bindings version -> Hpkg Hfile Hexec Hver.
    unfold BumpVersionPackage_post, BumpVersionPackage_get_version, bind.
    rewrite Hwait. unfold getitem at 1. rewrite Hpkg.
    rewrite get_package_version_spec. simpl.
    rewrite Hfile, Hexec, Hver.
    eexists. split; [reflexivity|]. split; [|done].
    assert (fresh (dom (heap w1)) <> context) as Hfresh.
    { intros <-. unfold dict_at in Hpkg.
      rewrite (not_elem_of_dom_1 (heap w1) _ (is_fresh _)) in Hpkg.
      simpl in Hpkg. by rewrite lookup_empty in Hpkg. }
    rewrite dict_at_insert. f_equal.
    unfold dict_at. simpl. by rewrite lookup_insert_ne.
Qed.

End ScriptFacts.

Lemma resolver_failures_witness :
  fst (seed_context exec_assignments (world_of missing_version_files []))
  = Raise (FileNotFoundError "demo/__version__.py")
  /\ resolver_case exec_assignments (world_of missing_version_files [])
       (FileNotFoundError "demo/__version__.py")
  /\ main_calls exec_assignments None (world_of missing_version_files [])
     = ([], (Raise (FileNotFoundError "demo/__version__.py"),
             snd (seed_context exec_assignments
                    (world_of missing_version_files [])))).
Proof.
  destruct (resolver_failures exec_assignments
              (world_of missing_version_files []))
    as (Hfails & Hcases & Hbefore).
  assert (fst (seed_context exec_assignments
                 (world_of missing_version_files []))
          = Raise (FileNotFoundError "demo/__version__.py")) as Hfail.
  { apply Hfails. right; right. exists "demo". split.
    - vm_compute. reflexivity.
    - left. split; vm_compute; reflexivity. }
  split; [exact Hfail|]. split.
  - apply Hcases; [exact I|exact Hfail].
  - apply (Hbefore _ None Hfail).
Defined.

(** C7, as stated, fails: with a descriptor that has its [NAME] line and
    no version file, the resolver fails with a not-found condition
    ([FileNotFoundError]) although neither of the two cases holds. *)
Lemma resolver_fails_in_a_third_case : ~ resolver_fails_in_exactly_two_cases.
Proof.
  intros H.
  destruct (H exec_assignments (world_of missing_version_files []))
    as [Hcases _].
  destruct Hcases
    as [(text & Hfile & Hfind)|(p & text & b & Hp & Hfile & _)].
  - exists (FileNotFoundError "demo/__version__.py").
    split; [exact I|]. vm_compute. reflexivity.
  - vm_compute in Hfile. injection Hfile as <-.
    vm_compute in Hfind. discriminate.
  - vm_compute in Hp. injection Hp as <-.
    vm_compute in Hfile. discriminate.
Qed.

(** The resolver fails in other ways as well: a version file that binds
    [__version__] and then raises makes it fail with what was raised,
    which is no not-found condition. *)
Example version_file_that_raises :
  fst (seed_context exec_assignments (world_of raising_version_files []))
  = Raise (OtherError "error while executing")
  /\ ~ not_found (OtherError "error while executing").
Proof. split; [vm_compute; reflexivity|intros []]. Qed.

Lemma bump_post_waits_then_captures_witness :
  exists w2,
    BumpVersionPackage_post exec_assignments 0 (demo_seeded bump_ops)
    = (Ok tt, w2)
    /\ dict_at 0 w2 !! "version" = Some "1.3.0".
Proof.
  destruct (proj2 (bump_post_waits_then_captures exec_assignments 0
                     (demo_seeded bump_ops))
              "demo" (line ("__version__ = " +:+ quoted "1.3.0"))
              (<["__version__" := "1.3.0"]> ∅) "1.3.0")
    as (w2 & Hpost & Hdict & _).
  - vm_compute. reflexivity.
  - vm_compute. reflexivity.
  - vm_compute. reflexivity.
  - vm_compute. reflexivity.
  - apply lookup_insert_eq.
  - exists w2. split; [exact Hpost|].
    rewrite Hdict. apply lookup_insert_eq.
Defined.

(** C6, as stated, fails: the operator sets the version to 1.3.0 while the
    step waits; the code leaves 1.3.0 in the context, where capturing
    before the wait would leave the old 1.2.3. *)
Lemma bump_post_reads_after_the_wait : ~ bump_post_captures_then_waits.
Proof.
  intros H.
  specialize (H exec_assignments 0%nat (demo_seeded bump_ops)).
  apply (f_equal (fun r => dict_at 0 (snd r) !! "version")) in H.
  vm_compute in H. discriminate.
Qed.

(** ** The exit status of spawned commands *)

Create HintDb blind.

Lemma blind_ret {A} (a : A) : status_blind (ret a).
Proof. by intros x w. Qed.

Lemma blind_raise {A} (e : exn) : status_blind (@raise World A e).
Proof. by intros x w. Qed.

Lemma blind_bind {A B} (m : M World A) (k : A -> M World B) :
  status_blind m -> (forall a, status_blind (k a)) -> status_blind (bind m k).
Proof.
  intros Hm Hk x w. unfold bind. rewrite Hm.
  destruct (m w) as [[a|e] w']; simpl; [apply Hk|done].
Qed.

Lemma blind_try_except {A} (m handler : M World A) (handles : exn -> bool) :
  status_blind m -> status_blind handler ->
  status_blind (try_except m handles handler).
Proof.
  intros Hm Hh x w. unfold try_except. rewrite Hm.
  destruct (m w) as [[a|e] w']; simpl; [done|].
  destruct (handles e); [apply Hh|done].
Qed.

Lemma blind_print (text : string) : status_blind (print text).
Proof. by intros x w. Qed.

Lemma blind_input (prompt : string) : status_blind (input prompt).
Proof.
  intros x w. unfold input. simpl.
  by destruct (await_line _ _) as [[r evs] fs].
Qed.

Lemma blind_webbrowser_open (url : string) : status_blind (webbrowser_open url).
Proof. by intros x w. Qed.

Lemma blind_read_text (path : string) : status_blind (read_text path).
Proof. intros x w. unfold read_text. simpl. by destruct (files w !! path). Qed.

Lemma blind_new_dict : status_blind new_dict.
Proof. by intros x w. Qed.

Lemma blind_getitem (d : nat) (key : string) : status_blind (getitem d key).
Proof.
  intros x w. unfold getitem.
  change (dict_at d (set_exit_status x w)) with (dict_at d w).
  by destruct (dict_at d w !! key).
Qed.

Lemma blind_setitem (d : nat) (key value : string) :
  status_blind (setitem d key value).
Proof. by intros x w. Qed.

Lemma blind_exec py_exec (text : string) (d : nat) :
  status_blind (exec py_exec text d).
Proof. intros x w. unfold exec. by destruct (py_exec text). Qed.

Lemma blind_os_system_discarded {A} (cmd : string) (m : M World A) :
  status_blind m -> status_blind (bind (os_system cmd) (fun _ => m)).
Proof.
  intros Hm x w. unfold bind, os_system. simpl.
  exact (Hm x (set_files (shell_effect w cmd (files w)) (emit (Spawned cmd) w))).
Qed.

Lemma blind_URLS_getitem key : status_blind (URLS_getitem key).
Proof. unfold URLS_getitem. destruct (URLS !! key); [apply blind_ret|apply blind_raise]. Qed.

#[local] Hint Resolve blind_ret blind_raise blind_print blind_input
  blind_webbrowser_open blind_read_text blind_new_dict blind_getitem
  blind_setitem blind_exec blind_URLS_getitem : blind.

Ltac blind :=
  repeat first
    [ solve [auto with blind]
    | apply blind_os_system_discarded
    | apply blind_bind; [|intros ?]
    | apply blind_try_except ].

Lemma blind_cprint msg c s : status_blind (cprint msg c s).
Proof. apply blind_print. Qed.

Lemma blind_wait_for_enter : status_blind wait_for_enter.
Proof. unfold wait_for_enter. blind. Qed.

#[local] Hint Resolve blind_cprint blind_wait_for_enter : blind.

Lemma blind_do_cmd cmd : status_blind (do_cmd cmd).
Proof. unfold do_cmd. blind. Qed.
#[local] Hint Resolve blind_do_cmd : blind.

Lemma blind_run s context : blind_step s -> status_blind (run s context).
Proof.
  intros Hs. destruct (Hs context) as (Hpre & Hact & Hpost).
  unfold run, lifecycle. blind.
Qed.

Lemma blind_subclass act : (forall context, status_blind (act context)) -> blind_step (subclass act).
Proof.
  intros Hact context. simpl. unfold Step_pre, Step_post. split; [|split]; auto with blind.
Qed.

Ltac blind_class := apply blind_subclass; intros context; unfold instruct, print_run, print_cmd; blind.

Lemma blind_BumpVersionPackage py_exec :
  blind_step (BumpVersionPackage py_exec).
Proof.
  intros context. simpl.
  unfold Step_pre, BumpVersionPackage_post, BumpVersionPackage_get_version,
    get_package_version, instruct, print_run, print_cmd.
  split; [|split]; blind.
Qed.

Lemma blind_procedure py_exec : Forall blind_step (map snd (procedure py_exec)).
Proof.
  unfold procedure. simpl.
  repeat apply List.Forall_cons; try apply List.Forall_nil;
    try apply blind_BumpVersionPackage; blind_class.
Qed.

Lemma blind_loop (P : list (string * Step)) (context : nat)
    (target : option string) (skip : bool) :
  Forall blind_step (map snd P) ->
  status_blind (loop P context target skip).
Proof.
  revert skip.
  induction P as [|[name step] rest IH]; intros skip HP; simpl.
  { apply blind_ret. }
  apply Forall_cons in HP as [Hstep Hrest].
  destruct (negb (eq_opt name target) && skip); [by apply IH|].
  apply blind_bind; [by apply blind_run|]. intros _. by apply IH.
Qed.

Lemma blind_execute (P : list (string * Step)) (context : nat)
    (target : option string) :
  Forall blind_step (map snd P) ->
  status_blind (execute P context target).
Proof.
  intros HP. unfold execute.
  apply blind_bind; [by apply blind_loop|]. intros _. apply blind_cprint.
Qed.

Lemma blind_get_package_name : status_blind get_package_name.
Proof.
  unfold get_package_name. apply blind_bind; [apply blind_read_text|].
  intros text. destruct (next_where _ _ _); [apply blind_ret|apply blind_raise].
Qed.

Lemma blind_seed_context py_exec : status_blind (seed_context py_exec).
Proof.
  pose proof blind_get_package_name.
  unfold seed_context, get_package_version. blind.
Qed.

Lemma blind_main py_exec target : status_blind (main py_exec target).
Proof.
  unfold main, colorama_init.
  apply blind_bind; [apply blind_ret|]. intros _.
  apply blind_bind; [apply blind_seed_context|]. intros context.
  apply blind_execute, blind_procedure.
Qed.

Lemma loop_calls_blind (P : list (string * Step)) (context : nat)
    (target : option string) (skip : bool) (x : list event -> string -> Z)
    (w : World) :
  Forall blind_step (map snd P) ->
  map call_name (fst (loop_calls P context target skip (set_exit_status x w)))
  = map call_name (fst (loop_calls P context target skip w)).
Proof.
  revert skip w.
  induction P as [|[name step] rest IH]; intros skip w HP; simpl; [done|].
  apply Forall_cons in HP as [Hstep Hrest].
  destruct (negb (eq_opt name target) && skip); [by apply IH|].
  rewrite (blind_run step context Hstep x w).
  destruct (run step context w) as [[u|e] w']; simpl; [|done].
  specialize (IH false w' Hrest).
  destruct (loop_calls rest context target false (set_exit_status x w')).
  destruct (loop_calls rest context target false w').
  simpl in *. by f_equal.
Qed.

Example os_system_returns_the_status : ~ status_blind (os_system "make test").
Proof.
  intros H. specialize (H (fun _ _ => 1) (world_of ∅ [])).
  apply (f_equal fst) in H. discriminate H.
Qed.

(** C9.  The exit status of a spawned command changes nothing: whatever
    statuses the commands return, [do_cmd], the [run] of every step that
    only runs a command, and the whole of [main] end the same way and leave
    the same world but for the statuses, and the runner calls [run] on the
    same entries. *)
Theorem exit_status_is_ignored :
  (forall cmd : string, status_blind (do_cmd cmd))
  /\ (forall (cmd : string) (context : nat),
        status_blind (run (subclass (fun _ => do_cmd cmd)) context))
  /\ (forall py_exec target, status_blind (main py_exec target))
  /\ (forall py_exec target x w,
        map call_name (fst (main_calls py_exec target (set_exit_status x w)))
        = map call_name (fst (main_calls py_exec target w))).
Proof.
  split; [apply blind_do_cmd|].
  split.
  { intros cmd context. apply blind_run, blind_subclass.
    intros _. apply blind_do_cmd. }
  split; [apply blind_main|].
  intros py_exec target x w. unfold main_calls.
  assert (status_blind (colorama_init >> seed_context py_exec)) as Hseed.
  { apply blind_bind; [apply blind_ret|]. intros _. apply blind_seed_context. }
  rewrite Hseed.
  destruct ((colorama_init >> seed_context py_exec) w) as [[context|e] w'];
    simpl; [|done].
  rewrite !execute_calls_fst. apply loop_calls_blind, blind_procedure.
Qed.

(** * More properties of the release runner *)

(** ** The runner and what its calls raise *)

Lemma loop_calls_target_unused (P : list (string * Step)) (context : nat)
    (target target' : option string) (w : World) :
  loop_calls P context target false w = loop_calls P context target' false w.
Proof.
  revert w. induction P as [|[name step] rest IH]; intros w; simpl; [done|].
  rewrite !andb_false_r.
  destruct (run step context w) as [[u|e] w']; [|done].
  by rewrite IH.
Qed.

(** X8.  Resuming at a target is running the procedure with the entries
    before the target left out: same calls, same outcome, same final
    world. *)
Theorem resume_is_running_the_rest (P : list (string * Step)) (context : nat)
    (t : string) (i : nat) (s : Step) (w : World) :
  NoDup (names P) -> P !! i = Some (t, s) -> t <> EmptyString ->
  execute_calls P context (Some t) w = execute_calls (drop i P) context None w.
Proof.
  intros Hnd Hi Ht.
  destruct (unique_name_not_before P i t s Hnd Hi) as [HP Hnot].
  unfold execute_calls. rewrite initial_skip_nonempty by done.
  change (initial_skip None) with false.
  rewrite HP at 1. rewrite loop_calls_skipping by done.
  rewrite loop_calls_at_target, <- (drop_S P (t, s) i Hi).
  by rewrite (loop_calls_target_unused _ _ (Some t) None).
Qed.

Lemma resume_is_running_the_rest_witness :
  execute_calls two_steps 0 (Some "deactivate") (world_of ∅ [press_enter])
  = execute_calls (drop 1 two_steps) 0 None (world_of ∅ [press_enter]).
Proof.
  apply (resume_is_running_the_rest two_steps 0 "deactivate" 1 DeactivateVenv).
  - unfold names; simpl. apply NoDup_cons. split; [not_a_name|].
    apply NoDup_singleton.
  - reflexivity.
  - discriminate.
Defined.

(** X9.  The runner handles no exception: whatever a call of [run] raises,
    that call is the last one, the runner ends with the same exception in
    the world the call left, and the final message is not printed. *)
Theorem runner_stops_at_the_first_exception (P : list (string * Step))
    (context : nat) (target : option string) (w : World) (i : nat)
    (c : call) (e : exn) :
  fst (execute_calls P context target w) !! i = Some c ->
  fst (call_outcome c) = Raise e ->
  length (fst (execute_calls P context target w)) = S i
  /\ snd (execute_calls P context target w) = (Raise e, snd (call_outcome c)).
Proof.
  intros Hc He. rewrite execute_calls_fst in *.
  destruct (loop_calls_raise P context target (initial_skip target) w i c e
              Hc He) as [Hlen Hout].
  split; [done|]. unfold execute_calls.
  destruct (loop_calls P context target (initial_skip target) w)
    as [cs [r w']]; simpl in *.
  rewrite <- Hout in He |- *. simpl in He. by subst r.
Qed.

Lemma loop_calls_end (P : list (string * Step)) (context : nat)
    (target : option string) (skip : bool) (w : World) :
  (fst (snd (loop_calls P context target skip w)) = Ok tt
   <-> Forall (fun c => fst (call_outcome c) = Ok tt)
              (fst (loop_calls P context target skip w)))
  /\ snd (snd (loop_calls P context target skip w))
     = from_option (fun c => snd (call_outcome c)) w
         (last (fst (loop_calls P context target skip w))).
Proof.
  revert skip w.
  induction P as [|[name step] rest IH]; intros skip w; simpl.
  { split; [|done]. split; [intros _; constructor|done]. }
  destruct (negb (eq_opt name target) && skip); [apply IH|].
  destruct (run step context w) as [[[]|e] w'] eqn:Hrun.
  - destruct (IH false w') as [Hiff Hlast].
    pose proof (loop_calls_head rest context target false w') as Hhead.
    destruct (loop_calls rest context target false w') as [cs out].
    simpl in *. split.
    + rewrite Hiff, Forall_cons. unfold call_outcome at 2. simpl.
      rewrite Hrun. simpl.
      split; [intros H; by split|by intros [_ H]].
    + rewrite Hlast. destruct cs as [|c' cs']; simpl.
      * unfold call_outcome. simpl. by rewrite Hrun.
      * destruct (last (c' :: cs')) as [x|] eqn:Hl; [done|].
        by apply last_None in Hl.
  - simpl. split.
    + split; [done|]. intros Hall%Forall_inv.
      unfold call_outcome in Hall. simpl in Hall. by rewrite Hrun in Hall.
    + unfold call_outcome. simpl. by rewrite Hrun.
Qed.

(** X10.  The runner ends normally exactly when every call of [run] it made
    returned normally, and then all it adds to what the last call left is
    the final message. *)
Theorem runner_ends_with_the_final_message (P : list (string * Step))
    (context : nat) (target : option string) (w : World) :
  (fst (snd (execute_calls P context target w)) = Ok tt
   <-> Forall (fun c => fst (call_outcome c) = Ok tt)
              (fst (execute_calls P context target w)))
  /\ (fst (snd (execute_calls P context target w)) = Ok tt ->
      snd (snd (execute_calls P context target w))
      = emit done_message
          (from_option (fun c => snd (call_outcome c)) w
             (last (fst (execute_calls P context target w))))).
Proof.
  destruct (loop_calls_end P context target (initial_skip target) w)
    as [Hiff Hlast].
  rewrite execute_calls_fst. unfold execute_calls.
  destruct (loop_calls P context target (initial_skip target) w)
    as [cs [[[]|e] w']]; simpl in *.
  - split; [by rewrite <- Hiff|]. intros _. by rewrite Hlast.
  - split; [by rewrite <- Hiff|done].
Qed.

(** ** What the steps do to the context *)

Create HintDb keeps.

Lemma keeps_ret {A} (a : A) : keeps_heap (ret a).
Proof. by intros w. Qed.

Lemma keeps_raise {A} (e : exn) : keeps_heap (@raise World A e).
Proof. by intros w. Qed.

Lemma keeps_bind {A B} (m : M World A) (k : A -> M World B) :
  keeps_heap m -> (forall a, keeps_heap (k a)) -> keeps_heap (bind m k).
Proof.
  intros Hm Hk w. unfold bind. specialize (Hm w).
  destruct (m w) as [[a|e] w']; simpl in *; [|done].
  by rewrite Hk.
Qed.

Lemma keeps_try_except {A} (m handler : M World A) (handles : exn -> bool) :
  keeps_heap m -> keeps_heap handler ->
  keeps_heap (try_except m handles handler).
Proof.
  intros Hm Hh w. unfold try_except. specialize (Hm w).
  destruct (m w) as [[a|e] w']; simpl in *; [done|].
  destruct (handles e); [by rewrite Hh|done].
Qed.

Lemma keeps_print (text : string) : keeps_heap (print text).
Proof. by intros w. Qed.

Lemma keeps_input (prompt : string) : keeps_heap (input prompt).
Proof.
  intros w. unfold input.
  by destruct (await_line _ _) as [[r evs] fs].
Qed.

Lemma keeps_os_system (cmd : string) : keeps_heap (os_system cmd).
Proof. by intros w. Qed.

Lemma keeps_webbrowser_open (url : string) : keeps_heap (webbrowser_open url).
Proof. by intros w. Qed.

Lemma keeps_read_text (path : string) : keeps_heap (read_text path).
Proof. intros w. unfold read_text. by destruct (files w !! path). Qed.

Lemma keeps_getitem (d : nat) (key : string) : keeps_heap (getitem d key).
Proof. intros w. unfold getitem. by destruct (dict_at d w !! key). Qed.

Lemma keeps_URLS_getitem (key : string) : keeps_heap (URLS_getitem key).
Proof.
  unfold URLS_getitem.
  destruct (URLS !! key); [apply keeps_ret|apply keeps_raise].
Qed.

#[local] Hint Resolve keeps_ret keeps_raise keeps_print keeps_input
  keeps_os_system keeps_webbrowser_open keeps_read_text keeps_getitem
  keeps_URLS_getitem : keeps.

Ltac keeps :=
  repeat first
    [ solve [auto with keeps]
    | apply keeps_bind; [|intros ?]
    | apply keeps_try_except ].

Lemma keeps_cprint msg c s : keeps_heap (cprint msg c s).
Proof. apply keeps_print. Qed.

Lemma keeps_wait_for_enter : keeps_heap wait_for_enter.
Proof. unfold wait_for_enter. keeps. Qed.

#[local] Hint Resolve keeps_cprint keeps_wait_for_enter : keeps.

Lemma keeps_do_cmd cmd : keeps_heap (do_cmd cmd).
Proof. unfold do_cmd. keeps. Qed.

#[local] Hint Resolve keeps_do_cmd : keeps.

Lemma keeps_run (s : Step) (context : nat) :
  keeps_heap (pre s context) -> keeps_heap (action s context) ->
  keeps_heap (post s context) -> keeps_heap (run s context).
Proof. intros Hpre Hact Hpost. unfold run, lifecycle. keeps. Qed.

Lemma keeps_subclass (act : nat -> M World unit) (context : nat) :
  keeps_heap (act context) -> keeps_heap (run (subclass act) context).
Proof.
  intros Hact. apply keeps_run; simpl; [apply keeps_ret|done|].
  apply keeps_wait_for_enter.
Qed.

Ltac keeps_class :=
  apply keeps_subclass; unfold instruct, print_run, print_cmd; keeps.

Lemma procedure_keeps_heap
    (py_exec : string -> exn + gmap string string) (name : string)
    (step : Step) (context : nat) (w : World) :
  (name, step) ∈ procedure py_exec -> name <> "bumpversion" ->
  heap (snd (run step context w)) = heap w.
Proof.
  intros Hin Hname. revert w. change (keeps_heap (run step context)).
  unfold procedure in Hin.
  repeat (apply elem_of_cons in Hin as [[= -> ->]|Hin];
          [first [done|keeps_class]|]).
  by apply elem_of_nil in Hin.
Qed.

Lemma dict_at_heap (c : nat) (w1 w2 : World) :
  heap w1 = heap w2 -> dict_at c w1 = dict_at c w2.
Proof. unfold dict_at. by intros ->. Qed.

Section BumpFacts.
Variable py_exec : string -> exn + gmap string string.

Lemma bump_post_spec (context : nat) (w : World) :
  BumpVersionPackage_post py_exec context w
  = match wait_for_enter w with
    | (Raise e, w1) => (Raise e, w1)
    | (Ok _, w1) =>
        match dict_at context w1 !! "pkgname" with
        | None => (Raise (KeyError "pkgname"), w1)
        | Some pkgname =>
            match get_package_version py_exec pkgname w1 with
            | (Raise e, w2) => (Raise e, w2)
            | (Ok v, w2) => setitem context "version" v w2
            end
        end
    end.
Proof.
  unfold BumpVersionPackage_post, BumpVersionPackage_get_version, bind,
    getitem.
  destruct (wait_for_enter w) as [[u|e] w1]; [|done].
  by destruct (dict_at context w1 !! "pkgname").
Qed.

(** What the [post] of the version-capture step does to the context. *)
Lemma bump_post_dict (context : nat) (w : World) :
  (forall k, k <> "version" ->
     dict_at context (snd (BumpVersionPackage_post py_exec context w)) !! k
     = dict_at context w !! k)
  /\ (fst (BumpVersionPackage_post py_exec context w) <> Ok tt ->
      dict_at context (snd (BumpVersionPackage_post py_exec context w))
      = dict_at context w)
  /\ (fst (BumpVersionPackage_post py_exec context w) = Ok tt ->
      is_Some (dict_at context
                 (snd (BumpVersionPackage_post py_exec context w))
               !! "version")).
Proof.
  pose proof (keeps_wait_for_enter w) as Hwait.
  rewrite bump_post_spec.
  destruct (wait_for_enter w) as [[u|e] w1]; simpl in Hwait.
  2:{ simpl. rewrite (dict_at_heap context w1 w Hwait). by repeat split. }
  rewrite <- (dict_at_heap context w1 w Hwait).
  destruct (dict_at context w1 !! "pkgname") as [pkgname|] eqn:Hpkg.
  2:{ simpl. by repeat split. }
  assert (fresh (dom (heap w1)) <> context) as Hfresh.
  { intros <-. unfold dict_at in Hpkg.
    rewrite (not_elem_of_dom_1 (heap w1) _ (is_fresh _)) in Hpkg.
    simpl in Hpkg. by rewrite lookup_empty in Hpkg. }
  rewrite get_package_version_spec. simpl.
  destruct (files w1 !! version_path pkgname) as [text|]; simpl.
  2:{ rewrite dict_at_insert_ne by done. by repeat split. }
  destruct (py_exec (universal_newlines text)) as [e|bindings]; simpl.
  { rewrite dict_at_insert_ne by done. by repeat split. }
  destruct (bindings !! "__version__") as [v|]; simpl.
  2:{ rewrite dict_at_insert_ne by done. by repeat split. }
  rewrite dict_at_insert, dict_at_insert_ne by done.
  fold (dict_at context w1).
  split; [|split].
  - intros k Hk. by rewrite lookup_insert_ne.
  - done.
  - intros _. rewrite lookup_insert_eq. eauto.
Qed.

Lemma bump_run_dict (context : nat) (w : World) (r : result unit)
    (w' : World) :
  run (BumpVersionPackage py_exec) context w = (r, w') ->
  (forall k, k <> "version" ->
     dict_at context w' !! k = dict_at context w !! k)
  /\ (r <> Ok tt -> dict_at context w' = dict_at context w)
  /\ (r = Ok tt -> is_Some (dict_at context w' !! "version")).
Proof.
  unfold run, try_except, lifecycle, bind. simpl.
  unfold Step_pre, ret, cprint, print, raise.
  assert (keeps_heap
            (instruct "Update __version__.py with new version" >>
             let* pkgname := getitem context "pkgname" in
             print_run ("vi " +:+ pkgname +:+ "/__version__.py")))
    as Hact.
  { unfold instruct, print_run, print_cmd. keeps. }
  specialize (Hact w).
  destruct ((instruct _ >> _) w) as [[u|e] wa]; simpl in *.
  2:{ destruct (is_KeyboardInterrupt e); intros [= <- <-]; simpl;
        rewrite <- (dict_at_heap context wa w Hact); by repeat split. }
  destruct (bump_post_dict context wa) as (Hk & Hfail & Hok).
  rewrite (dict_at_heap context wa w Hact) in Hk, Hfail.
  destruct (BumpVersionPackage_post py_exec context wa) as [[[]|e] wp];
    simpl in *.
  { intros [= <- <-]. by repeat split. }
  destruct (is_KeyboardInterrupt e); intros [= <- <-]; simpl.
  - change (dict_at context (emit _ wp)) with (dict_at context wp).
    split; [done|]. split; [intros _; by apply Hfail|done].
  - split; [done|]. split; [intros _; by apply Hfail|done].
Qed.

(** X5.  The version-capture step touches nothing in the context but
    [version]; it overwrites [version] only when it returns normally, and
    then the key is there. *)
Theorem version_step_writes_version_only (context : nat) (w : World) :
  (forall k, k <> "version" ->
     dict_at context (snd (run (BumpVersionPackage py_exec) context w)) !! k
     = dict_at context w !! k)
  /\ (fst (run (BumpVersionPackage py_exec) context w) <> Ok tt ->
      dict_at context (snd (run (BumpVersionPackage py_exec) context w))
      = dict_at context w)
  /\ (fst (run (BumpVersionPackage py_exec) context w) = Ok tt ->
      is_Some (dict_at context
                 (snd (run (BumpVersionPackage py_exec) context w))
               !! "version")).
Proof.
  destruct (run (BumpVersionPackage py_exec) context w) as [r w'] eqn:Hrun.
  simpl. by apply (bump_run_dict context w).
Qed.
End BumpFacts.

Section MoreScriptFacts.
Variable py_exec : string -> exn + gmap string string.

Lemma seed_context_success (w : World) (pkgname text : string)
    (bindings : gmap string string) (version : string) :
  fst (get_package_name w) = Ok pkgname ->
  files w !! version_path pkgname = Some text ->
  py_exec (universal_newlines text) = inr bindings ->
  bindings !! "__version__" = Some version ->
  exists w',
    seed_context py_exec w = (Ok (fresh (dom (heap w))), w')
    /\ dict_at (fresh (dom (heap w))) w'
       = <["version" := version]> (<["pkgname" := pkgname]> ∅)
    /\ (forall l, l ∈ dom (heap w) -> heap w' !! l = heap w !! l)
    /\ files w' = files w /\ operator w' = operator w /\ trace w' = trace w.
Proof.
  intros Hname Hfile Hexec Hver.
  rewrite get_package_name_spec in Hname. simpl in Hname.
  unfold seed_context, bind, new_dict, setitem, getitem, ret.
  rewrite !get_package_name_spec. simpl. 
  destruct (files w !! "./setup.py") as [stext|]; [|done].
  destruct (List.find _ (readlines stext)) as [l|]; [|done].
  injection Hname as Hname. rewrite Hname.
  rewrite !dict_at_insert, lookup_insert_eq.
  rewrite !get_package_version_spec. simpl.
  rewrite Hfile, Hexec, Hver.
  set (c := fresh (dom (heap w))).
  set (h1 := <[c:=<["pkgname":=pkgname]> ∅]> (<[c:=∅]> (heap w))).
  assert (fresh (dom h1) <> c) as Hfresh.
  { intros Heq. pose proof (is_fresh (dom h1)) as Hnot.
    rewrite Heq in Hnot. apply Hnot, elem_of_dom. unfold h1.
    rewrite lookup_insert_eq. eauto. }
  eexists. split; [reflexivity|].
  split.
  { rewrite dict_at_insert. f_equal.
    unfold dict_at. simpl. rewrite lookup_insert_ne by done.
    unfold h1. by rewrite lookup_insert_eq. }
  split; [|done].
  intros l0 Hl0. simpl.
  assert (l0 <> c) as Hc.
  { intros ->. by apply (is_fresh (dom (heap w))). }
  assert (l0 <> fresh (dom h1)) as Hc'.
  { intros ->. apply (is_fresh (dom h1)), elem_of_dom. unfold h1.
    rewrite !lookup_insert_ne by done. by apply elem_of_dom. }
  rewrite lookup_insert_ne by done.
  rewrite lookup_insert_ne by done.
  unfold h1. by rewrite !lookup_insert_ne.
Qed.
End MoreScriptFacts.

Lemma loop_calls_invariant (I : World -> Prop) (P : list (string * Step))
    (context : nat) (target : option string) (skip : bool) (w : World) :
  (forall name step w0, (name, step) ∈ P -> I w0 ->
     fst (run step context w0) = Ok tt -> I (snd (run step context w0))) ->
  I w ->
  forall c, c ∈ fst (loop_calls P context target skip w) -> I (call_world c).
Proof.
  revert skip w.
  induction P as [|[name step] rest IH]; intros skip w Hstep Hw c; simpl.
  { by intros ?%elem_of_nil. }
  assert (forall name step w0, (name, step) ∈ rest -> I w0 ->
            fst (run step context w0) = Ok tt ->
            I (snd (run step context w0))) as Hrest.
  { intros n s w0 Hin. apply (Hstep n s). by right. }
  destruct (negb (eq_opt name target) && skip); [by apply IH|].
  pose proof (Hstep name step w ltac:(left) Hw) as Hnext.
  destruct (run step context w) as [[[]|e] w'].
  - pose proof (IH false w' Hrest (Hnext eq_refl) c) as IH'.
    destruct (loop_calls rest context target false w') as [cs out].
    simpl in *. intros [->|Hin]%elem_of_cons; [done|auto].
  - simpl. by intros ->%list_elem_of_singleton.
Qed.

Section InvariantFacts.
Variable py_exec : string -> exn + gmap string string.

Lemma steps_keep_the_context_keys (name : string) (step : Step)
    (context : nat) (w : World) :
  (name, step) ∈ procedure py_exec ->
  (forall k, k <> "version" ->
     dict_at context (snd (run step context w)) !! k
     = dict_at context w !! k)
  /\ (is_Some (dict_at context w !! "version") ->
      is_Some (dict_at context (snd (run step context w)) !! "version")).
Proof.
  intros Hin.
  destruct (decide (name = "bumpversion")) as [->|Hname].
  - assert (step = BumpVersionPackage py_exec) as ->.
    { unfold procedure in Hin.
      repeat (apply elem_of_cons in Hin as [Heq|Hin]; [by simplify_eq|]).
      by apply elem_of_nil in Hin. }
    destruct (run (BumpVersionPackage py_exec) context w) as [r w']
      eqn:Hrun.
    destruct (bump_run_dict py_exec context w r w' Hrun)
      as (Hk & Hfail & Hok).
    simpl. split; [done|]. intros Hver.
    destruct r as [[]|e]; [by apply Hok|].
    by rewrite Hfail.
  - pose proof (procedure_keeps_heap py_exec name step context w
                  Hin Hname) as Hheap.
    rewrite (dict_at_heap context _ w Hheap). by split.
Qed.

Lemma calls_are_seeded (target : option string) (w : World)
    (c : call) :
  c ∈ fst (main_calls py_exec target w) ->
  exists pkgname,
    fst (get_package_name w) = Ok pkgname
    /\ call_context c = fresh (dom (heap w))
    /\ dict_at (call_context c) (call_world c) !! "pkgname" = Some pkgname
    /\ is_Some (dict_at (call_context c) (call_world c) !! "version").
Proof.
  unfold main_calls, bind at 1, colorama_init, ret.
  pose proof (seed_context_fst py_exec w) as Hfst.
  destruct (get_package_name w) as [[pkgname|e] wn] eqn:Hname; simpl in Hfst.
  2:{ destruct (seed_context py_exec w) as [[ctx|e'] w']; simpl in *;
        [done|]. by intros ?%elem_of_nil. }
  pose proof (get_package_version_spec py_exec pkgname w) as Hspec.
  simpl in Hspec.
  destruct (files w !! version_path pkgname) as [text|] eqn:Hfile.
  2:{ rewrite Hspec in Hfst. simpl in Hfst.
      destruct (seed_context py_exec w) as [[ctx|e'] w']; simpl in *;
        [done|]. by intros ?%elem_of_nil. }
  destruct (py_exec (universal_newlines text)) as [e|bindings] eqn:Hexec.
  { rewrite Hspec in Hfst. simpl in Hfst.
    destruct (seed_context py_exec w) as [[ctx|e'] w']; simpl in *;
      [done|]. by intros ?%elem_of_nil. }
  destruct (bindings !! "__version__") as [v|] eqn:Hver.
  2:{ rewrite Hspec in Hfst. simpl in Hfst.
      destruct (seed_context py_exec w) as [[ctx|e'] w']; simpl in *;
        [done|]. by intros ?%elem_of_nil. }
  destruct (seed_context_success py_exec w pkgname text bindings v)
    as (w' & Hseed & Hdict & _); [by rewrite Hname|done..|].
  rewrite Hseed. rewrite execute_calls_fst. intros Hc.
  exists pkgname. split; [done|].
  pose proof (loop_calls_context _ _ _ _ _ _ Hc) as Hctx.
  split; [done|]. rewrite Hctx.
  apply (loop_calls_invariant
           (fun w0 => dict_at (fresh (dom (heap w))) w0 !! "pkgname"
                      = Some pkgname
                      /\ is_Some (dict_at (fresh (dom (heap w))) w0
                                  !! "version"))
           _ _ _ _ _) with (c := c) in Hc; [done| |].
  - intros name step w0 Hin [Hp Hv] _.
    destruct (steps_keep_the_context_keys name step
                (fresh (dom (heap w))) w0 Hin) as [Hk Hkeep].
    split; [by rewrite Hk|by apply Hkeep].
  - rewrite Hdict. split.
    + rewrite lookup_insert_ne by done. by rewrite lookup_insert_eq.
    + rewrite lookup_insert_eq. eauto.
Qed.
End InvariantFacts.

(** ** Commands and confirmations *)

Lemma guarded_app (l1 l2 : list event) :
  guarded l1 -> guarded l2 -> guarded (l1 ++ l2).
Proof.
  induction 1; intros H2; simpl; [done| |].
  - apply guarded_quiet; auto.
  - apply guarded_spawn; auto.
Qed.

Lemma guarded_spawns_confirmed (evs : list event) :
  guarded evs -> spawns_confirmed evs.
Proof.
  induction 1 as [|e evs He _ IH|c evs _ IH]; intros i cmd Hi.
  - done.
  - destruct i as [|i]; simpl in Hi.
    + injection Hi as ->. done.
    + destruct (IH i cmd Hi) as (j & -> & H0 & H1 & H2).
      by exists (S j).
  - destruct i as [|[|[|[|i]]]]; simpl in Hi; try done.
    + injection Hi as ->. by exists 0%nat.
    + destruct (IH i cmd Hi) as (j & -> & H0 & H1 & H2).
      by exists (S (S (S (S j)))).
Qed.

Lemma ag_ret {A} (a : A) : appends_guarded (ret a).
Proof. intros w. exists []. split; [by rewrite app_nil_r|constructor]. Qed.

Lemma ag_raise {A} (e : exn) : appends_guarded (@raise World A e).
Proof. intros w. exists []. split; [by rewrite app_nil_r|constructor]. Qed.

Lemma ag_bind {A B} (m : M World A) (k : A -> M World B) :
  appends_guarded m -> (forall a, appends_guarded (k a)) ->
  appends_guarded (bind m k).
Proof.
  intros Hm Hk w. unfold bind. destruct (Hm w) as (l1 & H1 & G1).
  destruct (m w) as [[a|e] w']; simpl in *; [|by exists l1].
  destruct (Hk a w') as (l2 & H2 & G2).
  exists (l1 ++ l2). split; [|by apply guarded_app].
  by rewrite H2, H1, app_assoc.
Qed.

Lemma ag_try_except {A} (m handler : M World A) (handles : exn -> bool) :
  appends_guarded m -> appends_guarded handler ->
  appends_guarded (try_except m handles handler).
Proof.
  intros Hm Hh w. unfold try_except. destruct (Hm w) as (l1 & H1 & G1).
  destruct (m w) as [[a|e] w']; simpl in *; [by exists l1|].
  destruct (handles e); [|by exists l1].
  destruct (Hh w') as (l2 & H2 & G2).
  exists (l1 ++ l2). split; [|by apply guarded_app].
  by rewrite H2, H1, app_assoc.
Qed.

Lemma ag_quiet {A} (m : M World A) :
  (forall w, trace (snd (m w)) = trace w) -> appends_guarded m.
Proof.
  intros H w. exists []. split; [by rewrite app_nil_r|constructor].
Qed.

Lemma ag_print (text : string) : appends_guarded (print text).
Proof.
  intros w. exists [Printed text]. split; [done|].
  by repeat constructor.
Qed.

Lemma ag_input (prompt : string) : appends_guarded (input prompt).
Proof.
  intros w. exists [Prompted prompt]. unfold input.
  destruct (await_line _ _) as [[r evs] fs]. split; [done|].
  by repeat constructor.
Qed.

Lemma ag_webbrowser_open (url : string) : appends_guarded (webbrowser_open url).
Proof.
  intros w. exists [Browsed url]. split; [done|]. by repeat constructor.
Qed.

Lemma ag_read_text (path : string) : appends_guarded (read_text path).
Proof.
  apply ag_quiet. intros w. unfold read_text. by destruct (files w !! path).
Qed.

Lemma ag_getitem (d : nat) (key : string) : appends_guarded (getitem d key).
Proof.
  apply ag_quiet. intros w. unfold getitem.
  by destruct (dict_at d w !! key).
Qed.

Lemma ag_setitem (d : nat) (key value : string) :
  appends_guarded (setitem d key value).
Proof. by apply ag_quiet. Qed.

Lemma ag_new_dict : appends_guarded new_dict.
Proof. by apply ag_quiet. Qed.

Lemma ag_exec py_exec (text : string) (d : nat) :
  appends_guarded (exec py_exec text d).
Proof. apply ag_quiet. intros w. unfold exec. by destruct (py_exec text). Qed.

Lemma ag_URLS_getitem (key : string) : appends_guarded (URLS_getitem key).
Proof.
  unfold URLS_getitem. destruct (URLS !! key); [apply ag_ret|apply ag_raise].
Qed.

Lemma ag_do_cmd (cmd : string) : appends_guarded (do_cmd cmd).
Proof.
  intros w. unfold do_cmd, wait_for_enter, bind, cprint, print, input,
    os_system, ret. simpl.
  destruct (await_line _ _) as [[[l|e] evs] fs]; simpl.
  - exists [going_to_run cmd; enter_prompt; Printed EmptyString; Spawned cmd].
    split; [by rewrite <- !app_assoc|]. apply guarded_spawn. constructor.
  - exists [going_to_run cmd; enter_prompt].
    split; [by rewrite <- !app_assoc|]. by repeat constructor.
Qed.

Create HintDb ag.
#[local] Hint Resolve ag_ret ag_raise ag_print ag_input ag_webbrowser_open
  ag_read_text ag_getitem ag_setitem ag_new_dict ag_exec ag_URLS_getitem
  ag_do_cmd : ag.

Ltac ag :=
  repeat first
    [ solve [auto with ag]
    | apply ag_bind; [|intros ?]
    | apply ag_try_except ].

Lemma ag_cprint msg c s : appends_guarded (cprint msg c s).
Proof. apply ag_print. Qed.

Lemma ag_wait_for_enter : appends_guarded wait_for_enter.
Proof. unfold wait_for_enter. ag. Qed.

#[local] Hint Resolve ag_cprint ag_wait_for_enter : ag.

Lemma ag_run (s : Step) (context : nat) :
  appends_guarded (pre s context) -> appends_guarded (action s context) ->
  appends_guarded (post s context) -> appends_guarded (run s context).
Proof. intros Hpre Hact Hpost. unfold run, lifecycle. ag. Qed.

Lemma ag_subclass (act : nat -> M World unit) (context : nat) :
  appends_guarded (act context) -> appends_guarded (run (subclass act) context).
Proof.
  intros Hact. apply ag_run; simpl; [apply ag_ret|done|].
  apply ag_wait_for_enter.
Qed.

Ltac ag_class :=
  apply ag_subclass; unfold instruct, print_run, print_cmd; ag.

Lemma ag_get_package_name : appends_guarded get_package_name.
Proof.
  unfold get_package_name. apply ag_bind; [apply ag_read_text|].
  intros text. destruct (next_where _ _ _); [apply ag_ret|apply ag_raise].
Qed.

Section ConfirmFacts.
Variable py_exec : string -> exn + gmap string string.

Lemma ag_get_package_version (pkgname : string) :
  appends_guarded (get_package_version py_exec pkgname).
Proof. unfold get_package_version. ag. Qed.

Lemma ag_procedure (name : string) (step : Step) (context : nat) :
  (name, step) ∈ procedure py_exec -> appends_guarded (run step context).
Proof.
  pose proof ag_get_package_version.
  intros Hin. unfold procedure in Hin.
  assert (appends_guarded (run (BumpVersionPackage py_exec) context)) as Hb.
  { apply ag_run; simpl; unfold Step_pre, BumpVersionPackage_post,
      BumpVersionPackage_get_version, instruct, print_run, print_cmd; ag. }
  repeat (apply elem_of_cons in Hin as [[= -> ->]|Hin];
          [first [exact Hb|ag_class]|]).
  by apply elem_of_nil in Hin.
Qed.

Lemma ag_loop (P : list (string * Step)) (context : nat)
    (target : option string) (skip : bool) :
  (forall name step, (name, step) ∈ P -> appends_guarded (run step context)) ->
  appends_guarded (loop P context target skip).
Proof.
  revert skip.
  induction P as [|[name step] rest IH]; intros skip HP; simpl.
  { apply ag_ret. }
  assert (forall n s, (n, s) ∈ rest -> appends_guarded (run s context))
    as Hrest.
  { intros n s Hin. apply (HP n s). by right. }
  destruct (negb (eq_opt name target) && skip); [by apply IH|].
  apply ag_bind; [apply (HP name step); by left|]. intros _. by apply IH.
Qed.

(** X7.  [main] never runs a command the operator has not confirmed: in
    what a run adds to the trace, every spawned command comes right after
    the line that announces it, the prompt, and the empty line printed
    once the operator has pressed Enter. *)
Theorem every_command_is_confirmed (target : option string) (w : World) :
  exists evs,
    trace (snd (main py_exec target w)) = trace w ++ evs
    /\ spawns_confirmed evs.
Proof.
  assert (appends_guarded (main py_exec target)) as Hmain.
  { pose proof ag_get_package_name. pose proof ag_get_package_version.
    unfold main, colorama_init, seed_context, execute.
    apply ag_bind; [apply ag_ret|]. intros _.
    apply ag_bind; [ag|]. intros context.
    apply ag_bind; [|intros _; apply ag_cprint].
    apply ag_loop. intros name step. apply ag_procedure. }
  destruct (Hmain w) as (evs & Htrace & Hg).
  exists evs. split; [done|]. by apply guarded_spawns_confirmed.
Qed.
End ConfirmFacts.

Example os_system_alone_is_not_confirmed :
  ~ spawns_confirmed (trace (snd (os_system "make test" (world_of ∅ [])))).
Proof.
  intros H. destruct (H 0%nat "make test" eq_refl) as (j & Hj & _). lia.
Qed.

(** ** How a run can fail *)

Lemma seeded_heap (context : nat) (w1 w2 : World) :
  heap w1 = heap w2 -> seeded context w2 -> seeded context w1.
Proof. intros H. unfold seeded. by rewrite (dict_at_heap context w1 w2 H). Qed.

Lemma fow_ret (context : nat) {A} (a : A) :
  fails_only_waiting context (ret a).
Proof. by intros w e _. Qed.

Lemma fow_bind (context : nat) {A B} (m : M World A) (k : A -> M World B) :
  keeps_heap m -> fails_only_waiting context m ->
  (forall a, fails_only_waiting context (k a)) ->
  fails_only_waiting context (bind m k).
Proof.
  intros Hkeep Hm Hk w e Hw. unfold bind.
  specialize (Hkeep w). specialize (Hm w).
  destruct (m w) as [[a|e'] w']; simpl in *.
  - apply Hk. by apply (seeded_heap context w' w).
  - intros [= <-]. by apply Hm.
Qed.

Lemma fow_print (context : nat) (text : string) :
  fails_only_waiting context (print text).
Proof. by intros w e _. Qed.

Lemma await_line_raises (evs : list operator_event)
    (fs : gmap string string) (e : exn) :
  fst (fst (await_line evs fs)) = Raise e -> wait_failure e.
Proof.
  revert fs. induction evs as [|ev evs IH]; intros fs; simpl.
  - intros [= <-]. by right.
  - destruct ev; simpl; [apply IH|done| |].
    + intros [= <-]. by left.
    + intros [= <-]. by right.
Qed.

Lemma fow_input (context : nat) (prompt : string) :
  fails_only_waiting context (input prompt).
Proof.
  intros w e _. unfold input.
  pose proof (await_line_raises (operator (emit (Prompted prompt) w))
                (files (emit (Prompted prompt) w)) e) as H.
  destruct (await_line _ _) as [[r evs] fs]. simpl in *. apply H.
Qed.

Lemma fow_os_system (context : nat) (cmd : string) :
  fails_only_waiting context (os_system cmd).
Proof. by intros w e _. Qed.

Lemma fow_webbrowser_open (context : nat) (url : string) :
  fails_only_waiting context (webbrowser_open url).
Proof. by intros w e _. Qed.

Lemma fow_getitem_pkgname (context : nat) :
  fails_only_waiting context (getitem context "pkgname").
Proof.
  intros w e [[p Hp] _]. unfold getitem. by rewrite Hp.
Qed.

Lemma fow_getitem_version (context : nat) :
  fails_only_waiting context (getitem context "version").
Proof.
  intros w e [_ [v Hv]]. unfold getitem. by rewrite Hv.
Qed.

Lemma fow_URLS_Travis (context : nat) :
  fails_only_waiting context (URLS_getitem "Travis").
Proof. by intros w e _. Qed.

Lemma fow_URLS_RTD (context : nat) :
  fails_only_waiting context (URLS_getitem "RTD").
Proof. by intros w e _. Qed.

Create HintDb fow.
#[local] Hint Resolve fow_ret fow_print fow_input fow_os_system
  fow_webbrowser_open fow_getitem_pkgname fow_getitem_version
  fow_URLS_Travis fow_URLS_RTD : fow.

Ltac fow :=
  repeat first
    [ solve [auto with fow]
    | apply fow_bind; [solve [keeps]| |intros ?] ].

Lemma fow_cprint (context : nat) msg c s :
  fails_only_waiting context (cprint msg c s).
Proof. apply fow_print. Qed.

Lemma fow_wait_for_enter (context : nat) :
  fails_only_waiting context wait_for_enter.
Proof. unfold wait_for_enter. fow. Qed.

#[local] Hint Resolve fow_cprint fow_wait_for_enter : fow.

Lemma fow_do_cmd (context : nat) (cmd : string) :
  fails_only_waiting context (do_cmd cmd).
Proof. unfold do_cmd. fow. Qed.

#[local] Hint Resolve fow_do_cmd : fow.

Lemma run_fails_only_waiting (act : nat -> M World unit) (context : nat)
    (w : World) (e : exn) :
  keeps_heap (act context) -> fails_only_waiting context (act context) ->
  seeded context w ->
  fst (run (subclass act) context w) = Raise e ->
  e = SystemExit 1 \/ e = EOFError.
Proof.
  intros Hkeep Hact Hw.
  assert (fails_only_waiting context (lifecycle (subclass act) context))
    as Hlife.
  { unfold lifecycle. simpl. unfold Step_pre, Step_post.
    apply fow_bind; [apply keeps_ret|apply fow_ret|]. intros _.
    apply fow_bind; [done|done|]. intros _. apply fow_wait_for_enter. }
  specialize (Hlife w). unfold run, try_except.
  destruct (lifecycle (subclass act) context w) as [[u|e'] w']; simpl in *;
    [done|].
  destruct (Hlife e' Hw eq_refl) as [->| ->]; simpl.
  - intros [= <-]. by left.
  - intros [= <-]. by right.
Qed.

Ltac fow_class :=
  apply run_fails_only_waiting;
  unfold instruct, print_run, print_cmd; [keeps|fow].

(** Apart from the version-capture step, a step of the procedure run on a
    context that has [pkgname] and [version] can fail in two ways only. *)
Lemma procedure_fails_only_waiting
    (py_exec : string -> exn + gmap string string) (name : string)
    (step : Step) (context : nat) (w : World) (e : exn) :
  (name, step) ∈ procedure py_exec -> name <> "bumpversion" ->
  seeded context w ->
  fst (run step context w) = Raise e ->
  e = SystemExit 1 \/ e = EOFError.
Proof.
  intros Hin Hname. revert w e. unfold procedure in Hin.
  repeat (apply elem_of_cons in Hin as [[= -> ->]|Hin];
          [first [done|intros w e; fow_class]|]).
  by apply elem_of_nil in Hin.
Qed.

Lemma loop_calls_entries (P : list (string * Step)) (context : nat)
    (target : option string) (skip : bool) (w : World) (c : call) :
  c ∈ fst (loop_calls P context target skip w) -> call_entry c ∈ P.
Proof.
  revert skip w.
  induction P as [|[name step] rest IH]; intros skip w; simpl.
  { by intros ?%elem_of_nil. }
  destruct (negb (eq_opt name target) && skip).
  { intros Hc. right. by apply (IH _ _ Hc). }
  destruct (run step context w) as [[u|e] w'].
  - pose proof (IH false w') as IH'.
    destruct (loop_calls rest context target false w') as [cs out].
    simpl in *. intros [->|Hin]%elem_of_cons; [by left|right; auto].
  - simpl. intros ->%list_elem_of_singleton. by left.
Qed.

Section FailureFacts.
Variable py_exec : string -> exn + gmap string string.

Lemma version_step_failures (context : nat) (w : World) (e : exn) :
  seeded context w ->
  fst (run (BumpVersionPackage py_exec) context w) = Raise e ->
  e = SystemExit 1 \/ e = EOFError \/ reread_failure py_exec e.
Proof.
  intros Hw.
  assert (forall w0 e0, seeded context w0 ->
            fst (BumpVersionPackage_post py_exec context w0) = Raise e0 ->
            wait_failure e0 \/ reread_failure py_exec e0) as Hpost.
  { intros w0 e0 Hw0. rewrite bump_post_spec.
    pose proof (fow_wait_for_enter context w0) as Hwait.
    pose proof (keeps_wait_for_enter w0) as Hheap.
    destruct (wait_for_enter w0) as [[u|e1] w1]; simpl in *.
    2:{ intros [= <-]. left. by apply Hwait. }
    destruct (seeded_heap context w1 w0 Hheap Hw0) as [[p Hp] _].
    rewrite Hp, get_package_version_spec. simpl.
    destruct (files w1 !! version_path p) as [text|]; simpl.
    2:{ intros [= <-]. right. left. eauto. }
    destruct (py_exec (universal_newlines text)) as [e1|b] eqn:Hexec; simpl.
    { intros [= <-]. right. right. right. eauto. }
    destruct (b !! "__version__"); simpl; [done|].
    intros [= <-]. right. right. by left. }
  assert (keeps_heap (action (BumpVersionPackage py_exec) context)
          /\ fails_only_waiting context
               (action (BumpVersionPackage py_exec) context)) as [Hka Hfa].
  { simpl. unfold instruct, print_run, print_cmd. split; [keeps|fow]. }
  unfold run, try_except, lifecycle, bind.
  change (pre (BumpVersionPackage py_exec) context w) with (Ok tt, w).
  cbv iota beta.
  specialize (Hka w). specialize (Hfa w).
  change (post (BumpVersionPackage py_exec) context)
    with (BumpVersionPackage_post py_exec context).
  destruct (action (BumpVersionPackage py_exec) context w) as [[u|e1] wa];
    simpl in Hka, Hfa.
  - specialize (Hpost wa). cbv iota beta.
    destruct (BumpVersionPackage_post py_exec context wa) as [[u'|e1] wp];
      simpl in *; [done|].
    destruct (Hpost e1 (seeded_heap context wa w Hka Hw) eq_refl)
      as [[->| ->]|Hre]; simpl.
    + intros [= <-]. by left.
    + intros [= <-]. right. by left.
    + destruct (is_KeyboardInterrupt e1) eqn:Hk; simpl.
      * intros [= <-]. by left.
      * intros [= <-]. right. by right.
  - cbv iota beta. destruct (Hfa e1 Hw eq_refl) as [->| ->]; simpl.
    + intros [= <-]. by left.
    + intros [= <-]. right. by left.
Qed.

Lemma call_failures (target : option string) (w : World) (c : call)
    (e : exn) :
  c ∈ fst (main_calls py_exec target w) ->
  fst (call_outcome c) = Raise e ->
  e = SystemExit 1 \/ e = EOFError
  \/ (call_name c = "bumpversion" /\ reread_failure py_exec e).
Proof.
  intros Hc He.
  destruct (calls_are_seeded py_exec target w c Hc)
    as (p & _ & _ & Hp & Hv).
  assert (seeded (call_context c) (call_world c)) as Hseeded.
  { split; [eauto|done]. }
  assert (call_entry c ∈ procedure py_exec) as Hin.
  { unfold main_calls in Hc.
    destruct ((colorama_init >> seed_context py_exec) w) as [[ctx|e'] w'];
      [|by apply elem_of_nil in Hc].
    rewrite execute_calls_fst in Hc. by apply loop_calls_entries in Hc. }
  unfold call_outcome in He. unfold call_entry in Hin.
  destruct (decide (call_name c = "bumpversion")) as [Hname|Hname].
  - assert (call_step c = BumpVersionPackage py_exec) as Hstep.
    { rewrite Hname in Hin. unfold procedure in Hin.
      repeat (apply elem_of_cons in Hin as [Heq|Hin]; [by simplify_eq|]).
      by apply elem_of_nil in Hin. }
    rewrite Hstep in He.
    destruct (version_step_failures _ _ _ Hseeded He) as [->|[->|Hre]];
      auto.
  - destruct (procedure_fails_only_waiting py_exec _ _ _ _ _ Hin Hname
                Hseeded He) as [->| ->]; auto.
Qed.
End FailureFacts.

Lemma loop_calls_raised (P : list (string * Step)) (context : nat)
    (target : option string) (skip : bool) (w : World) (e : exn) :
  fst (snd (loop_calls P context target skip w)) = Raise e ->
  exists c, c ∈ fst (loop_calls P context target skip w)
            /\ fst (call_outcome c) = Raise e.
Proof.
  revert skip w.
  induction P as [|[name step] rest IH]; intros skip w; simpl; [done|].
  destruct (negb (eq_opt name target) && skip); [apply IH|].
  destruct (run step context w) as [[u|e'] w'] eqn:Hrun.
  - pose proof (IH false w') as IH'.
    destruct (loop_calls rest context target false w') as [cs out].
    simpl in *. intros He. destruct (IH' He) as (c & Hc & Hout).
    exists c. split; [by right|done].
  - simpl. intros [= <-]. eexists. split; [by left|].
    unfold call_outcome. simpl. by rewrite Hrun.
Qed.

Lemma execute_calls_raised (P : list (string * Step)) (context : nat)
    (target : option string) (w : World) (e : exn) :
  fst (snd (execute_calls P context target w)) = Raise e ->
  exists c, c ∈ fst (execute_calls P context target w)
            /\ fst (call_outcome c) = Raise e.
Proof.
  rewrite execute_calls_fst. unfold execute_calls.
  pose proof (loop_calls_raised P context target (initial_skip target) w e)
    as Hl.
  destruct (loop_calls P context target (initial_skip target) w)
    as [cs [[u|e'] w']]; simpl in *; [done|].
  intros [= ->]. by apply Hl.
Qed.

Lemma main_calls_cases (py_exec : string -> exn + gmap string string)
    (target : option string) (w : World) :
  main_calls py_exec target w
  = match seed_context py_exec w with
    | (Ok context, w') => execute_calls (procedure py_exec) context target w'
    | (Raise e, w') => ([], (Raise e, w'))
    end.
Proof.
  unfold main_calls, bind, colorama_init, ret.
  by destruct (seed_context py_exec w) as [[context|e] w'].
Qed.


(** ** The package name *)

Lemma append_nil_l (t : string) : EmptyString +:+ t = t.
Proof. reflexivity. Qed.

Lemma append_cons (c : ascii) (s t : string) :
  String c s +:+ t = String c (s +:+ t).
Proof. reflexivity. Qed.

Lemma append_nil_r (s : string) : s +:+ EmptyString = s.
Proof.
  induction s as [|c s IH]; [done|]. by rewrite append_cons, IH.
Qed.

Lemma append_assoc (s1 s2 s3 : string) :
  (s1 +:+ s2) +:+ s3 = s1 +:+ (s2 +:+ s3).
Proof.
  induction s1 as [|c s1 IH]; [done|]. by rewrite !append_cons, IH.
Qed.

Lemma rev_app_append (s1 s2 : string) :
  String.rev_app s1 s2 = String.rev s1 +:+ s2.
Proof.
  unfold String.rev. revert s2.
  induction s1 as [|c s1 IH]; intros s2; simpl; [done|].
  rewrite IH, (IH (String c EmptyString)). by rewrite append_assoc.
Qed.

Lemma rev_cons (c : ascii) (s : string) :
  String.rev (String c s) = String.rev s +:+ String c EmptyString.
Proof. unfold String.rev at 1. simpl. apply rev_app_append. Qed.

Lemma rev_append (s1 s2 : string) :
  String.rev (s1 +:+ s2) = String.rev s2 +:+ String.rev s1.
Proof.
  induction s1 as [|c s1 IH].
  - by rewrite append_nil_l, append_nil_r.
  - by rewrite append_cons, !rev_cons, IH, append_assoc.
Qed.

Lemma rev_involutive (s : string) : String.rev (String.rev s) = s.
Proof.
  induction s as [|c s IH]; [done|].
  by rewrite rev_cons, rev_append, IH.
Qed.

Lemma rstrip_snoc (drop : ascii -> bool) (s : string) (c : ascii) :
  rstrip drop (s +:+ String c EmptyString)
  = if drop c then rstrip drop s else s +:+ String c EmptyString.
Proof.
  unfold rstrip. rewrite rev_append.
  change (String.rev (String c EmptyString)) with (String c EmptyString).
  rewrite append_cons, append_nil_l. simpl.
  destruct (drop c); [done|].
  by rewrite rev_cons, rev_involutive.
Qed.

Lemma last_char (s : string) :
  s = EmptyString \/ exists s' c, s = s' +:+ String c EmptyString.
Proof.
  destruct (String.rev s) as [|c t] eqn:Hrev.
  - left. by rewrite <- (rev_involutive s), Hrev.
  - right. exists (String.rev t), c.
    by rewrite <- (rev_involutive s), Hrev, rev_cons.
Qed.

Lemma has_char_append (c : ascii) (s1 s2 : string) :
  has_char c (s1 +:+ s2) = has_char c s1 || has_char c s2.
Proof.
  induction s1 as [|c' s1 IH]; [done|].
  rewrite append_cons. simpl. by rewrite IH, orb_assoc.
Qed.

Lemma split_without_sep (sep : ascii) (s : string) :
  has_char sep s = false -> split sep s = [s].
Proof.
  induction s as [|c s IH]; simpl; [done|].
  intros [Hc Hs]%orb_false_iff. rewrite Hc. by rewrite IH.
Qed.

Lemma strip_char_quoted (name : string) :
  unquoted name -> strip_char DQUOTE (quoted name) = name.
Proof.
  intros [Hfirst Hlast]. unfold strip_char, quoted.
  assert (rstrip (ascii_eqb DQUOTE) name = name) as Hr.
  { destruct (last_char name) as [->|(s' & c & ->)]; [done|].
    rewrite rstrip_snoc.
    destruct (ascii_eqb DQUOTE c) eqn:Hc; [|done].
    apply bool_decide_eq_true in Hc as <-. by destruct (Hlast s'). }
  simpl.
  destruct name as [|c n].
  - done.
  - rewrite append_cons. simpl. destruct (ascii_eqb DQUOTE c) eqn:Hc.
    { apply bool_decide_eq_true in Hc as <-. by destruct (Hfirst n). }
    rewrite <- append_cons.
    rewrite rstrip_snoc. simpl. apply Hr.
Qed.

Lemma split_nonempty (sep : ascii) (s : string) : split sep s <> [].
Proof.
  induction s as [|c s IH]; simpl; [done|].
  destruct (ascii_eqb c sep); [done|]. by destruct (split sep s).
Qed.

Lemma split_append_sep (sep : ascii) (s t : string) :
  split sep (s +:+ String sep t) = split sep s ++ split sep t.
Proof.
  induction s as [|c s IH].
  - rewrite append_nil_l. simpl. unfold ascii_eqb.
    by rewrite bool_decide_eq_true_2.
  - rewrite append_cons. simpl. rewrite IH.
    destruct (ascii_eqb c sep); [done|].
    pose proof (split_nonempty sep s).
    by destruct (split sep s).
Qed.

Lemma last_field (sep : ascii) (s t : string) :
  has_char sep t = false ->
  last_item (split sep (s +:+ String sep t)) = t.
Proof.
  intros Ht. rewrite split_append_sep, (split_without_sep sep t Ht).
  unfold last_item. apply last_last.
Qed.

Lemma name_line_value (name : string) :
  has_char "=" name = false -> unquoted name ->
  strip_char DQUOTE
    (strip (last_item (split "=" (strip (line ("NAME = " +:+ quoted name))))))
  = name.
Proof.
  intros Heq Hq.
  assert (strip (line ("NAME = " +:+ quoted name))
          = "NAME " +:+ String "=" (" " +:+ quoted name)) as ->.
  { unfold strip, line.
    change (lstrip isspace (("NAME = " +:+ quoted name)
                            +:+ String LF EmptyString))
      with (("NAME = " +:+ quoted name) +:+ String LF EmptyString).
    rewrite rstrip_snoc.
    change (isspace LF) with true. cbv iota.
    unfold quoted.
    change ("NAME = " +:+ String DQUOTE (name +:+ String DQUOTE EmptyString))
      with (("NAME = " +:+ String DQUOTE name) +:+ String DQUOTE EmptyString).
    by rewrite rstrip_snoc. }
  rewrite last_field.
  2:{ unfold quoted. rewrite !append_cons, append_nil_l. simpl.
      by rewrite has_char_append, Heq. }
  assert (strip (" " +:+ quoted name) = quoted name) as ->.
  { unfold strip.
    change (lstrip isspace (" " +:+ quoted name)) with (quoted name).
    unfold quoted.
    change (String DQUOTE (name +:+ String DQUOTE EmptyString))
      with (String DQUOTE name +:+ String DQUOTE EmptyString).
    by rewrite rstrip_snoc. }
  by apply strip_char_quoted.
Qed.

(** X2.  The resolver reads back a quoted name: when the first line of the
    descriptor that starts with [NAME = ] is [NAME = "name"], and the name
    has no equals sign and no double quote at either end, the package name
    is that name, white space inside the quotes included. *)
Theorem get_package_name_reads_the_name (w : World) (text name : string) :
  files w !! "./setup.py" = Some text ->
  List.find (fun l => startswith l "NAME = ") (readlines text)
  = Some (line ("NAME = " +:+ quoted name)) ->
  has_char "=" name = false -> unquoted name ->
  get_package_name w = (Ok name, w).
Proof.
  intros Hfile Hfind Heq Hq.
  rewrite get_package_name_spec, Hfile, Hfind.
  by rewrite name_line_value.
Qed.

Lemma has_char_rev (c : ascii) (s : string) :
  has_char c (String.rev s) = has_char c s.
Proof.
  induction s as [|c' s IH]; [done|].
  rewrite rev_cons, has_char_append, IH. simpl.
  by rewrite orb_false_r, orb_comm.
Qed.

Lemma has_char_lstrip (c : ascii) (drop : ascii -> bool) (s : string) :
  has_char c s = false -> has_char c (lstrip drop s) = false.
Proof.
  induction s as [|c' s IH]; simpl; [done|].
  intros [Hc Hs]%orb_false_iff.
  destruct (drop c'); [auto|]. simpl. by rewrite Hc, Hs.
Qed.

Lemma has_char_rstrip (c : ascii) (drop : ascii -> bool) (s : string) :
  has_char c s = false -> has_char c (rstrip drop s) = false.
Proof.
  intros Hs. unfold rstrip. rewrite has_char_rev.
  apply has_char_lstrip. by rewrite has_char_rev.
Qed.

Lemma has_char_split (sep : ascii) (s : string) :
  Forall (fun field => has_char sep field = false) (split sep s).
Proof.
  induction s as [|c s IH]; simpl.
  { by repeat constructor. }
  destruct (ascii_eqb c sep) eqn:Hc.
  - by constructor.
  - destruct (split sep s) as [|f fs]; [by repeat constructor; simpl; rewrite Hc|].
    apply Forall_cons in IH as [Hf Hfs].
    constructor; [|done]. simpl. by rewrite Hc, Hf.
Qed.

Lemma has_char_last_item (sep : ascii) (s : string) :
  has_char sep (last_item (split sep s)) = false.
Proof.
  pose proof (has_char_split sep s) as Hall.
  pose proof (split_nonempty sep s) as Hne.
  unfold last_item.
  destruct (exists_last Hne) as (l & x & Hl). rewrite Hl in *.
  rewrite last_last. apply Forall_app in Hall as [_ Hx].
  by apply Forall_inv in Hx.
Qed.

(** X3.  The package name never contains an equals sign: of a value with
    one, only what follows the last is kept. *)
Theorem package_name_has_no_equals_sign (w : World) (name : string) :
  fst (get_package_name w) = Ok name -> has_char "=" name = false.
Proof.
  rewrite get_package_name_spec. simpl.
  destruct (files w !! "./setup.py") as [text|]; [|done].
  destruct (List.find _ (readlines text)) as [l|]; [|done].
  intros [= <-]. unfold strip_char, strip.
  repeat first [apply has_char_rstrip | apply has_char_lstrip].
  apply has_char_last_item.
Qed.

(** ** The properties, with an example of each *)

Lemma loop_calls_first (name : string) (step : Step)
    (rest : list (string * Step)) (context : nat) (target : option string)
    (w : World) :
  fst (loop_calls ((name, step) :: rest) context target false w) !! 0%nat
  = Some (mkCall name step context w).
Proof.
  simpl. rewrite andb_false_r.
  destruct (run step context w) as [[u|e] w']; [|done].
  by destruct (loop_calls rest context target false w').
Qed.

Lemma main_calls_seeded (py_exec : string -> exn + gmap string string)
    (target : option string) (w : World) (context : nat) :
  fst (seed_context py_exec w) = Ok context ->
  main_calls py_exec target w
  = execute_calls (procedure py_exec) context target
      (snd (seed_context py_exec w)).
Proof.
  rewrite main_calls_cases.
  destruct (seed_context py_exec w) as [[c|e] w']; simpl; [|done].
  by intros [= ->].
Qed.

(** The first call of a run for the project [demo]. *)
Lemma first_call_of_demo :
  first_call ∈ fst (main_calls exec_assignments None (world_of demo_files [])).
Proof.
  rewrite (main_calls_seeded exec_assignments None _ 0%nat)
    by (vm_compute; reflexivity).
  rewrite execute_calls_fst. change (initial_skip None) with false.
  apply list_elem_of_lookup. exists 0%nat. unfold procedure.
  apply loop_calls_first.
Qed.

(** X1.  When the descriptor gives a name and the version file of that
    name, executed, binds [__version__], the resolver returns a new dict
    that holds exactly [pkgname] and [version]; the dicts there were, the
    files, the operator and the console are untouched. *)
Theorem seed_context_ok (py_exec : string -> exn + gmap string string)
    (w : World) (pkgname text : string) (bindings : gmap string string)
    (version : string) :
  fst (get_package_name w) = Ok pkgname ->
  files w !! version_path pkgname = Some text ->
  py_exec (universal_newlines text) = inr bindings ->
  bindings !! "__version__" = Some version ->
  exists w',
    seed_context py_exec w = (Ok (fresh (dom (heap w))), w')
    /\ dict_at (fresh (dom (heap w))) w'
       = <["version" := version]> (<["pkgname" := pkgname]> ∅)
    /\ (forall l, l ∈ dom (heap w) -> heap w' !! l = heap w !! l)
    /\ files w' = files w /\ operator w' = operator w /\ trace w' = trace w.
Proof. apply seed_context_success. Qed.

Lemma seed_context_ok_witness :
  exists w',
    seed_context exec_assignments (world_of demo_files [])
    = (Ok (fresh (dom (heap (world_of demo_files [])))), w')
    /\ dict_at (fresh (dom (heap (world_of demo_files [])))) w' !! "version"
       = Some "1.2.3".
Proof.
  destruct (seed_context_ok exec_assignments (world_of demo_files [])
              "demo" (line ("__version__ = " +:+ quoted "1.2.3"))
              (<["__version__" := "1.2.3"]> ∅) "1.2.3")
    as (w' & Hseed & Hdict & _).
  - vm_compute. reflexivity.
  - vm_compute. reflexivity.
  - vm_compute. reflexivity.
  - apply lookup_insert_eq.
  - exists w'. split; [exact Hseed|].
    rewrite Hdict. apply lookup_insert_eq.
Defined.

Lemma get_package_name_reads_the_name_witness :
  get_package_name (world_of demo_files [])
  = (Ok "demo", world_of demo_files []).
Proof.
  apply (get_package_name_reads_the_name (world_of demo_files [])
           (line "import os" +:+ line ("NAME = " +:+ quoted "demo")) "demo").
  - vm_compute. reflexivity.
  - vm_compute. reflexivity.
  - reflexivity.
  - split; intros s H; [discriminate|].
    apply (f_equal String.rev) in H. rewrite rev_append in H.
    vm_compute in H. discriminate.
Defined.

Lemma package_name_has_no_equals_sign_witness :
  has_char "=" "demo" = false.
Proof.
  apply (package_name_has_no_equals_sign (world_of equals_files [])).
  vm_compute. reflexivity.
Defined.

(** X4.  Of the steps of the procedure only the version-capture step
    writes: the [run] of any other leaves every dict as it is, however it
    ends. *)
Theorem only_the_version_step_writes
    (py_exec : string -> exn + gmap string string) (name : string)
    (step : Step) (context : nat) (w : World) :
  (name, step) ∈ procedure py_exec -> name <> "bumpversion" ->
  heap (snd (run step context w)) = heap w.
Proof. apply procedure_keeps_heap. Qed.

Lemma only_the_version_step_writes_witness :
  heap (snd (run GitToMaster 0 (demo_seeded [press_enter])))
  = heap (demo_seeded [press_enter]).
Proof.
  apply (only_the_version_step_writes exec_assignments "gittomaster").
  - unfold procedure. by left.
  - discriminate.
Defined.

Lemma version_step_writes_version_only_witness :
  dict_at 0 (snd (run (BumpVersionPackage exec_assignments) 0
                    (demo_seeded [release_1_3_0; CtrlC])))
  = dict_at 0 (demo_seeded [release_1_3_0; CtrlC]).
Proof.
  apply (version_step_writes_version_only exec_assignments 0
           (demo_seeded [release_1_3_0; CtrlC])).
  intros H. vm_compute in H. discriminate.
Defined.

(** X6.  At every call of [run] in a run of [main] the step is passed the
    dict the resolver made, and that dict has [pkgname], still the name the
    resolver read, and [version]. *)
Theorem context_is_seeded_at_every_call
    (py_exec : string -> exn + gmap string string) (target : option string)
    (w : World) (c : call) :
  c ∈ fst (main_calls py_exec target w) ->
  exists pkgname,
    fst (get_package_name w) = Ok pkgname
    /\ call_context c = fresh (dom (heap w))
    /\ dict_at (call_context c) (call_world c) !! "pkgname" = Some pkgname
    /\ is_Some (dict_at (call_context c) (call_world c) !! "version").
Proof. apply calls_are_seeded. Qed.

Lemma context_is_seeded_at_every_call_witness :
  seeded (call_context first_call) (call_world first_call).
Proof.
  destruct (context_is_seeded_at_every_call exec_assignments None
              (world_of demo_files []) first_call first_call_of_demo)
    as (pkgname & _ & _ & Hpkg & Hversion).
  split; [by exists pkgname|exact Hversion].
Defined.

Lemma runner_stops_at_the_first_exception_witness :
  length (fst (execute_calls two_steps 0 None (world_of ∅ []))) = 1%nat
  /\ snd (execute_calls two_steps 0 None (world_of ∅ []))
     = (Raise EOFError,
        snd (call_outcome (mkCall "gitadd1" GitAdd 0 (world_of ∅ [])))).
Proof.
  apply (runner_stops_at_the_first_exception two_steps 0 None
           (world_of ∅ []) 0 (mkCall "gitadd1" GitAdd 0 (world_of ∅ []))).
  - rewrite execute_calls_fst. change (initial_skip None) with false.
    unfold two_steps. apply loop_calls_first.
  - vm_compute. reflexivity.
Defined.

Lemma runner_ends_with_the_final_message_witness :
  snd (snd (execute_calls two_steps 0 None
              (world_of ∅ [press_enter; press_enter])))
  = emit done_message
      (from_option (fun c => snd (call_outcome c))
         (world_of ∅ [press_enter; press_enter])
         (last (fst (execute_calls two_steps 0 None
                       (world_of ∅ [press_enter; press_enter]))))).
Proof.
  apply (proj2 (runner_ends_with_the_final_message two_steps 0 None
                  (world_of ∅ [press_enter; press_enter]))).
  vm_compute. reflexivity.
Defined.




(** * Properties of [csv2df] *)

Section Csv2dfFacts.

Variables encoding dialect csv_dialect arguments dataframe : Type.
Variable get_encoding : string -> M Wrappers.World encoding.
Variable decode : encoding -> string -> exn + string.
Variable Detector_detect : string -> M Wrappers.World dialect.
Variable to_csv_dialect : dialect -> csv_dialect.
Variable pd_read_csv :
  string -> arguments -> csv_dialect -> M Wrappers.World dataframe.

Abbreviation csv2df :=
  (Wrappers.csv2df encoding dialect csv_dialect arguments dataframe
     get_encoding decode Detector_detect to_csv_dialect pd_read_csv).
Abbreviation csv2df_read :=
  (Wrappers.csv2df_read encoding dialect csv_dialect arguments dataframe
     get_encoding decode Detector_detect to_csv_dialect pd_read_csv).

(** C10.  For a filename that does not refer to an existing regular file
    [csv2df] raises the [ValueError] and has read nothing: the world is
    untouched and nothing after the check was run.  For a filename that
    refers to one the check passes and the function goes on to read the
    file: the encoding is detected, and when that returns with the file
    still in place the file is opened, decoded and its text given to the
    dialect detector. *)
Theorem csv2df_checks_the_file (filename : string) (args : arguments)
    (w : Wrappers.World) :
  (~ Wrappers.is_regular_file filename w ->
   csv2df filename args w
   = (Raise (ValueError "Filename must be a regular file"), w))
  /\ (Wrappers.is_regular_file filename w ->
      csv2df filename args w = csv2df_read filename args w)
  /\ (forall bytes enc w1 text,
        Wrappers.nodes w !! filename = Some (Wrappers.RegularFile bytes) ->
        get_encoding filename w = (Ok enc, w1) ->
        Wrappers.nodes w1 !! filename = Some (Wrappers.RegularFile bytes) ->
        decode enc bytes = inr text ->
        csv2df filename args w
        = (let* dialect := Detector_detect text in
           pd_read_csv filename args (to_csv_dialect dialect))
            (Wrappers.mkWorld (Wrappers.nodes w1)
               (Wrappers.opened w1 ++ [filename]))).
Proof.
  assert (Wrappers.is_regular_file filename w ->
          csv2df filename args w = csv2df_read filename args w) as Hpass.
  { intros [bytes Hfile].
    unfold Wrappers.csv2df, bind, Wrappers.os_path_exists,
      Wrappers.os_path_isfile.
    rewrite bool_decide_eq_true_2 by (by rewrite Hfile).
    by rewrite Hfile. }
  split; [|split; [exact Hpass|]].
  - intros Hnot.
    unfold Wrappers.csv2df, bind, Wrappers.os_path_exists,
      Wrappers.os_path_isfile, ret, raise.
    destruct (Wrappers.nodes w !! filename) as [[bytes|]|] eqn:Hfile.
    + destruct Hnot. by exists bytes.
    + cbn. by rewrite Hfile.
    + reflexivity.
  - intros bytes enc w1 text Hfile Henc Hstill Hdecode.
    rewrite Hpass by (by exists bytes).
    unfold Wrappers.csv2df_read, bind, Wrappers.read_file.
    by rewrite Henc, Hstill, Hdecode.
Qed.

End Csv2dfFacts.

Lemma csv2df_checks_the_file_witness :
  Wrappers.sample_csv2df "reports" tt (Wrappers.mkWorld Wrappers.sample_nodes [])
  = (Raise (ValueError "Filename must be a regular file"),
     Wrappers.mkWorld Wrappers.sample_nodes [])
  /\ Wrappers.sample_csv2df "data.csv" tt (Wrappers.mkWorld Wrappers.sample_nodes [])
     = (Ok "data.csv read with delimiter ;",
        Wrappers.mkWorld Wrappers.sample_nodes ["data.csv"]).
Proof.
  split.
  - apply (proj1 (csv2df_checks_the_file _ _ _ _ _ _ _ _ _ _ _ _ _)).
    intros [bytes Hfile]. vm_compute in Hfile. discriminate.
  - unfold Wrappers.sample_csv2df.
    etrans;
      [apply (proj2 (proj2 (csv2df_checks_the_file _ _ _ _ _ _ _ _ _ _ _ _ _))
                "a;b" "utf-8" (Wrappers.mkWorld Wrappers.sample_nodes []) "a;b");
       reflexivity
      |reflexivity].
Defined.

(** * Properties of [read_as_lol] *)

Section ReadAsLolFacts.

Import Wrappers.

Variables encoding dialect row : Type.
Variable get_encoding : string -> M World encoding.
Variable decode : encoding -> string -> exn + string.
Variable Detector_detect : string -> bool -> M World dialect.
Variable reader_list : file encoding -> dialect -> M World (list row).

Abbreviation read_as_lol :=
  (Wrappers.read_as_lol encoding dialect row get_encoding decode
     Detector_detect reader_list).

(** X13.  [read_as_lol] gives the reader the file from its beginning whether
    the dialect was supplied or detected, although detecting reads the file
    to its end; a supplied dialect goes to the reader as it is and nothing
    is detected. *)
Theorem read_as_lol_reads_from_the_start (filename : string)
    (verbose : bool) (w w1 : World) (enc : encoding) (bytes : string) :
  get_encoding filename w = (Ok enc, w1) ->
  nodes w1 !! filename = Some (RegularFile bytes) ->
  (forall given,
     read_as_lol filename (Some given) verbose w
     = reader_list (mkFile encoding bytes enc 0) given
         (mkWorld (nodes w1) (opened w1 ++ [filename])))
  /\ (forall text,
        decode enc bytes = inr text ->
        read_as_lol filename None verbose w
        = (let* detected := Detector_detect text verbose in
           reader_list (mkFile encoding bytes enc 0) detected)
            (mkWorld (nodes w1) (opened w1 ++ [filename])))
  /\ (forall e,
        decode enc bytes = inl e ->
        read_as_lol filename None verbose w
        = (Raise e, mkWorld (nodes w1) (opened w1 ++ [filename]))).
Proof.
  intros Henc Hfile. unfold Wrappers.read_as_lol, bind, open_text.
  rewrite Henc, Hfile. split; [done|]. unfold fid_read. simpl. split.
  - intros text ->. simpl.
    by destruct (Detector_detect text verbose _) as [[d|e] w2].
  - by intros e ->.
Qed.

End ReadAsLolFacts.

Lemma read_as_lol_reads_from_the_start_witness :
  Wrappers.sample_read_as_lol "data.csv" None false
    (Wrappers.mkWorld Wrappers.sample_nodes [])
  = (Ok [[";"; "a;b"]], Wrappers.mkWorld Wrappers.sample_nodes ["data.csv"]).
Proof.
  unfold Wrappers.sample_read_as_lol.
  etrans;
    [apply (proj1 (proj2 (read_as_lol_reads_from_the_start _ _ _ _ _ _ _
                            "data.csv" false
                            (Wrappers.mkWorld Wrappers.sample_nodes [])
                            (Wrappers.mkWorld Wrappers.sample_nodes [])
                            "utf-8" "a;b" eq_refl eq_refl)) "a;b" eq_refl)
    |reflexivity].
Defined.
